(** * cycle-stats: the grouping-and-aggregation processor

    A shallow embedding of the [cyclestats] telegraf processor
    (type [CycleStats] with [New], [Init], [Reset], [generateGroupByKey],
    [groupBy], [Apply], [push] and [Aggregate]) together with the parts of
    Go's [time] package and of telegraf's [Metric] that the processor
    calls, followed by the properties of the engine. *)

From Stdlib Require Import ZArith String Ascii List DecimalString Permutation.
From stdpp Require Import gmap strings list fin_maps.

Local Open Scope Z_scope.

(* ===================================================================== *)
(** ** Go's [time.Time], as far as the processor uses it                  *)
(* ===================================================================== *)

Module gotime.

(** A [*time.Location] as [Time.String] sees it: the zone abbreviation
    and the offset east of UTC in seconds that are in force at the instant
    printed.  [time.UTC] and every [time.FixedZone] are exactly such a
    pair; zones change at whole seconds, so truncating to the second stays
    within the zone. *)
Record Location := { zoneName : string; zoneOffset : Z }.

Definition UTC : Location := {| zoneName := "UTC"; zoneOffset := 0 |}.
Definition FixedZone (name : string) (offset : Z) : Location :=
  {| zoneName := name; zoneOffset := offset |}.

(** An instant (nanoseconds since the Unix epoch) carried in a location.
    The monotonic clock reading is left out: [Truncate] strips it before
    anything is printed. *)
Record Time := { unixNano : Z; loc : Location }.

(** Durations are nanosecond counts. *)
Definition Nanosecond : Z := 1.
Definition Millisecond : Z := 1000000 * Nanosecond.
Definition Second : Z := 1000 * Millisecond.

(** Seconds from the zero time (January 1, year 1, 00:00:00 UTC) to the
    Unix epoch. *)
Definition unixToInternal : Z := 62135596800.

(** [t.Truncate(d)]: round [t] down to a multiple of [d] since the zero
    time; [t] itself when [d <= 0]. *)
Definition Truncate (t : Time) (d : Z) : Time :=
  if d <=? 0 then t
  else
    let r := (unixNano t + unixToInternal * Second) mod d in
    {| unixNano := unixNano t - r; loc := loc t |}.

(** *** Printing *)

Definition decimal (n : Z) : string :=
  NilZero.string_of_uint (N.to_uint (Z.to_N n)).

Fixpoint zeros (n : nat) : string :=
  match n with
  | O => EmptyString
  | S k => String "0" (zeros k)
  end.

(** [appendInt]: sign, then the magnitude padded with zeros to [width]. *)
Definition appendInt (x : Z) (width : nat) : string :=
  let digits := decimal (Z.abs x) in
  let padded := (zeros (width - String.length digits) +:+ digits)%string in
  if x <? 0 then String "-" padded else padded.

(** Days since the Unix epoch to the proleptic Gregorian (year, month,
    day). *)
Definition civil (days : Z) : Z * Z * Z :=
  let z := days + 719468 in
  let era := z / 146097 in
  let doe := z - era * 146097 in
  let yoe := (doe - doe / 1460 + doe / 36524 - doe / 146096) / 365 in
  let doy := doe - (365 * yoe + yoe / 4 - yoe / 100) in
  let mp := (5 * doy + 2) / 153 in
  let d := doy - (153 * mp + 2) / 5 + 1 in
  let m := if mp <? 10 then mp + 3 else mp - 9 in
  let y := yoe + era * 400 in
  (if m <=? 2 then y + 1 else y, m, d).

(** Drop the zeros at the end of a digit string. *)
Fixpoint trimZeros (s : string) : string :=
  match s with
  | EmptyString => EmptyString
  | String c r =>
      match trimZeros r with
      | EmptyString => if Ascii.eqb c "0" then EmptyString else String c EmptyString
      | r' => String c r'
      end
  end.

(** The [.999999999] element of a layout: nothing for a whole second,
    else the fraction without its trailing zeros. *)
Definition appendNano (nanosec : Z) : string :=
  if nanosec =? 0 then EmptyString
  else String "." (trimZeros (appendInt nanosec 9)).

(** The [-0700] element. *)
Definition appendZone (offset : Z) : string :=
  let zone := Z.quot offset 60 in
  let sign : string := if zone <? 0 then "-"%string else "+"%string in
  (sign +:+ appendInt (Z.quot (Z.abs zone) 60) 2
        +:+ appendInt (Z.rem (Z.abs zone) 60) 2)%string.

(** The [MST] element: the abbreviation, or the numeric offset when the
    zone has none. *)
Definition appendAbbrev (l : Location) : string :=
  if String.eqb (zoneName l) EmptyString then appendZone (zoneOffset l)
  else zoneName l.

(** [t.String()], that is [t.Format("2006-01-02 15:04:05.999999999 -0700 MST")]. *)
Definition String (t : Time) : string :=
  let sec := unixNano t / Second in
  let nsec := unixNano t mod Second in
  let abs := sec + zoneOffset (loc t) in
  let '(year, month, day) := civil (abs / 86400) in
  let tod := abs mod 86400 in
  (appendInt year 4 +:+ "-" +:+ appendInt month 2 +:+ "-" +:+ appendInt day 2
     +:+ " " +:+ appendInt (tod / 3600) 2 +:+ ":" +:+ appendInt (tod mod 3600 / 60) 2
     +:+ ":" +:+ appendInt (tod mod 60) 2 +:+ appendNano nsec
     +:+ " " +:+ appendZone (zoneOffset (loc t))
     +:+ " " +:+ appendAbbrev (loc t))%string.

End gotime.

(* ===================================================================== *)
(** ** telegraf's [Metric], as far as the processor uses it               *)
(* ===================================================================== *)

Module Metric.

(** The value types a field may hold once stored in a metric. *)
Inductive FieldValue :=
| VFloat (bits : Z)      (* float64, by its IEEE-754 bit pattern *)
| VInt (i : Z)           (* int64 *)
| VUint (u : Z)          (* uint64 *)
| VString (s : string)
| VBool (b : bool).

Record Field := { Key : string; Value : FieldValue }.
Record Tag := { TagKey : string; TagValue : string }.

Record t := {
  Name : string;
  TagList : list Tag;
  FieldList : list Field;
  Time : gotime.Time
}.

(** [m.HasField(key)] *)
Definition HasField (m : t) (key : string) : bool :=
  existsb (fun f => String.eqb key (Key f)) (FieldList m).

(** [m.GetField(key)]: the value of the first field called [key]. *)
Definition GetField (m : t) (key : string) : option FieldValue :=
  Value <$> List.find (fun f => String.eqb key (Key f)) (FieldList m).

(** The loop of [AddField]: overwrite the first field called [key] in
    place, append when there is none. *)
Fixpoint setField (fs : list Field) (key : string) (value : FieldValue) : list Field :=
  match fs with
  | [] => [ {| Key := key; Value := value |} ]
  | f :: fs' =>
      if String.eqb key (Key f) then {| Key := key; Value := value |} :: fs'
      else f :: setField fs' key value
  end.

(** [m.AddField(key, value)] *)
Definition AddField (m : t) (key : string) (value : FieldValue) : t :=
  {| Name := Name m; TagList := TagList m;
     FieldList := setField (FieldList m) key value; Time := Time m |}.

(** [m.Copy()]: a deep copy; later writes to the copy leave [m] alone,
    which a value does for free. *)
Definition Copy (m : t) : t :=
  {| Name := Name m; TagList := TagList m; FieldList := FieldList m; Time := Time m |}.

End Metric.

Abbreviation Metric := Metric.t.

(* ===================================================================== *)
(** ** telegraf's [filter] package                                        *)
(* ===================================================================== *)

(** Go errors, by their message. *)
Definition error := string.

(** [filter.Filter] and [filter.Compile], which live outside this
    repository: compiling a list of glob patterns gives a filter or the
    error of the glob compiler.  The processor never matches against the
    filter, so only success or failure of the compilation matters. *)
Class FilterPkg := {
  Filter : Type;
  filter_Compile : list string -> Filter + error
}.

(* ===================================================================== *)
(** ** The processor                                                      *)
(* ===================================================================== *)

Section Processor.
Context `{FilterPkg}.

(** The struct.  [Log] is the sink the logger writes to. *)
Record CycleStats := {
  Name : string;
  GroupBy : list string;
  Log : list string;
  Fields : gmap string (list string);
  cache : gmap string (list Metric);
  filters : option Filter
}.

Definition set_cache (c : gmap string (list Metric)) (t : CycleStats) : CycleStats :=
  {| Name := Name t; GroupBy := GroupBy t; Log := Log t; Fields := Fields t;
     cache := c; filters := filters t |}.

Definition set_filters (f : option Filter) (t : CycleStats) : CycleStats :=
  {| Name := Name t; GroupBy := GroupBy t; Log := Log t; Fields := Fields t;
     cache := cache t; filters := f |}.

Definition log_line (line : string) (t : CycleStats) : CycleStats :=
  {| Name := Name t; GroupBy := GroupBy t; Log := Log t ++ [line]; Fields := Fields t;
     cache := cache t; filters := filters t |}.

(** The table [New] fills in, assignment by assignment. *)
Definition defaultFields : gmap string (list string) :=
  let fields : gmap string (list string) := ∅ in
  let fields := <["steam_params" :=
    ["steam_type"; "cook_temp"; "control_temp"; "hot_drain_temp"; "pv_unsafe";
     "pv_too_low"; "drain_open_duration"; "drain_to_sec1"; "drain_to_sec2";
     "wait_pressure"]%string]> fields in
  let fields := <["steam_stats" :=
    ["error"; "flows"; "pd_timeouts"; "stag_recoveries"; "stop_cook_count"]%string]> fields in
  let fields := <["vessel_status" :=
    ["lid_position"; "shroud_inside_up"; "shroud_inside_down"; "shroud_outside_up";
     "shroud_outside_down"; "shrouds"; "vessel_temperature"; "heater_temperature";
     "runaway_temperature"; "pv_sensor_type"; "vessel_pressure"; "seal_pressure";
     "accumulator_pressure"; "top_cover"; "top_lid_open"; "top_lid_closed";
     "bottom_lid_open"; "bottom_lid_closed"]%string]> fields in
  let fields := <["steam_stats" :=
    ["error"; "flows"; "pd_timeouts"; "stag_recoveries"; "stop_cook_count"]%string]> fields in
  let fields := <["system_status" :=
    ["cover_interlock"; "battery_fault"; "line_current"; "deodorizer_tank"; "oil_tank";
     "flow_count"; "bag_door"; "top_cover"; "reservoir"; "fans"]%string]> fields in
  let fields := <["sys_status_mngr" :=
    ["heater"; "vacuum"; "water"; "compressor"]%string]> fields in
  let fields := <["grinder" :=
    ["grinder_state"; "jack_status"; "switches_bottom"; "switches_top";
     "reversals"]%string]> fields in
  let fields := <["vessel_lid_failure" :=
    ["top_lid_open_failed"; "top_lid_close_failed"; "bottom_lid_open_failed";
     "bottom_lid_close_failed"; "inside_shroud_open_failed";
     "inside_shroud_close_failed"; "accumulator_not_pressurized";
     "seals_vacuum_failed"; "jack_up_failed"; "close_seals_failed";
     "vent_seals_failed"; "compressor_throttled"; "pv_mismatch"; "error"]%string]> fields in
  fields.

(** [Reset] *)
Definition Reset (t : CycleStats) : CycleStats := set_cache ∅ t.

(** [New] *)
Definition New : CycleStats :=
  Reset {| Name := EmptyString; GroupBy := ["*"%string]; Log := [];
           Fields := defaultFields; cache := ∅; filters := None |}.

(** [Init]: logs, and returns the nil error. *)
Definition Init (t : CycleStats) : CycleStats * option error :=
  (log_line "Initializing Portal CycleStats Processor" t, None).

(** The key a metric is grouped under: its name, and its time truncated
    to the second and printed. *)
Definition groupkeyOf (m : Metric) : string :=
  (Metric.Name m +:+ "&"
     +:+ gotime.String (gotime.Truncate (Metric.Time m) (1000 * gotime.Millisecond)))%string.

(** [%v] of a [[]string] *)
Definition showStrings (l : list string) : string :=
  ("[" +:+ String.concat " " l +:+ "]")%string.

(** [generateGroupByKey]: compiles the patterns on first use; the Go pair
    (key, error) comes with the receiver as the call leaves it. *)
Definition generateGroupByKey (t : CycleStats) (m : Metric)
  : CycleStats * (string * option error) :=
  match filters t, GroupBy t with
  | None, _ :: _ =>
      match filter_Compile (GroupBy t) with
      | inr err =>
          (t, (EmptyString,
               Some ("could not compile pattern: " +:+ showStrings (GroupBy t)
                       +:+ " " +:+ err)%string))
      | inl f => (set_filters (Some f) t, (groupkeyOf m, None))
      end
  | _, _ => (t, (groupkeyOf m, None))
  end.

(** [groupBy] *)
Definition groupBy (t : CycleStats) (m : Metric) : CycleStats :=
  let '(t, (groupkey, err)) := generateGroupByKey t m in
  match err with
  | Some e => log_line ("Could not generate group key: " +:+ e) t
  | None =>
      let c :=
        match cache t !! groupkey with
        | Some _ => cache t
        | None => <[groupkey := []]> (cache t)
        end in
      set_cache (<[groupkey := (c !!! groupkey) ++ [m]]> c) t
  end.

(** [Aggregate]: the merged metric ([None] is Go's nil metric, what an
    empty buffer gives) and the error, which is always nil.  [writeField]
    is the body of the inner loop, [mergeInto] the body of the outer one. *)
Definition writeField (metric : Metric) (field : Metric.Field) : Metric :=
  Metric.AddField metric (Metric.Key field) (Metric.Value field).

Definition mergeInto (metric : option Metric) (m : Metric) : option Metric :=
  match metric with
  | None => Some (Metric.Copy m)
  | Some agg => Some (fold_left writeField (Metric.FieldList m) agg)
  end.

Definition Aggregate (ms : list Metric) : option Metric * option error :=
  (fold_left mergeInto ms None, None).

(** [push].  Go leaves the order of [range] over a map open; the groups
    are taken here in the order of [map_to_list], and what is proved of a
    flushed batch does not depend on that order. *)
Definition push (t : CycleStats) : list (option Metric) * CycleStats :=
  let aggs := fold_left (fun aggs '(_, ms) => aggs ++ [fst (Aggregate ms)])
                        (map_to_list (cache t)) [] in
  (aggs, Reset t).

(** The state of the loop of [Apply]: the receiver and the two locals
    that outlive an iteration. *)
Record loopState := {
  recv : CycleStats;
  groupkey : string;
  measurment : string
}.

(** One iteration over [m] ([m.Drop()] only tells a delivery tracker that
    [m] is done with; it changes neither [m] nor the receiver). *)
Definition Apply_body (st : loopState) (m : Metric) : loopState :=
  let '(t, (gkey, _)) := generateGroupByKey (recv st) m in
  let hasField := existsb (fun f => Metric.HasField m f) (Fields t !!! Metric.Name m) in
  {| recv := if hasField then groupBy t m else t;
     groupkey := gkey;
     measurment := Metric.Name m |}.

Definition Apply_loop (t : CycleStats) (batch : list Metric) : loopState :=
  fold_left Apply_body batch
            {| recv := t; groupkey := EmptyString; measurment := EmptyString |}.

(** The test after the loop: [len(t.cache[groupkey]) >= len(t.Fields[measurment])]. *)
Definition complete (st : loopState) : bool :=
  (length (Fields (recv st) !!! measurment st) <=? length (cache (recv st) !!! groupkey st))%nat.

(** [Apply] *)
Definition Apply (t : CycleStats) (batch : list Metric) : list (option Metric) * CycleStats :=
  let st := Apply_loop t batch in
  if complete st then push (recv st) else ([], recv st).

End Processor.

(* ===================================================================== *)
(** ** Strings and the separator                                          *)
(* ===================================================================== *)

(** Does the string contain the separator of group keys? *)
Fixpoint hasAmp (s : string) : bool :=
  match s with
  | EmptyString => false
  | String c r => Ascii.eqb c "&" || hasAmp r
  end.


(* ===================================================================== *)
(** ** Notions the properties are stated with                             *)
(* ===================================================================== *)

(** Last writer wins: the value of the last write to [key] in a sequence
    of writes, if there is one. *)
Definition lastWrite (key : string) (writes : list Metric.Field) : option Metric.FieldValue :=
  Metric.Value <$> List.find (fun f => String.eqb key (Metric.Key f)) (rev writes).

(** The fields a buffer writes onto its aggregate, in buffer order: those
    of every metric after the first. *)
Definition laterWrites (rest : list Metric) : list Metric.Field :=
  concat (List.map Metric.FieldList rest).

Section Notions.
Context `{FilterPkg}.

(** Does a key computation on [t] give a key?  It does unless the patterns
    are still to be compiled and do not compile. *)
Definition compilable (t : CycleStats) : bool :=
  match filters t, GroupBy t with
  | None, _ :: _ =>
      match filter_Compile (GroupBy t) with inl _ => true | inr _ => false end
  | _, _ => true
  end.

(** The receiver as a key computation leaves it: with the patterns
    compiled, if they had to be and could be. *)
Definition warm (t : CycleStats) : CycleStats :=
  match filters t, GroupBy t with
  | None, _ :: _ =>
      match filter_Compile (GroupBy t) with inl f => set_filters (Some f) t | inr _ => t end
  | _, _ => t
  end.

(** The [hasField] test of [Apply]: does [m] carry one of the fields
    required of its measurement? *)
Definition accepts (t : CycleStats) (m : Metric) : bool :=
  existsb (fun f => Metric.HasField m f) (Fields t !!! Metric.Name m).

(** The cache operation [put] of [groupBy]: append [m] to the buffer of
    its key. *)
Definition put (c : gmap string (list Metric)) (m : Metric) : gmap string (list Metric) :=
  <[groupkeyOf m := (c !!! groupkeyOf m) ++ [m]]> c.

(** The measurement the completeness test looks up after a batch: the name
    of its last metric, the empty name for an empty batch. *)
Definition lastName (batch : list Metric) : string :=
  List.last (List.map Metric.Name batch) EmptyString.

(** The aggregates of a cache, one per group. *)
Definition aggregates (c : gmap string (list Metric)) : list (option Metric) :=
  (fun kv : string * list Metric => fst (Aggregate (snd kv))) <$> map_to_list c.

(** [m] is a report for measurement [n] under key [k] that carries one of
    the required fields [req]. *)
Definition report (n : string) (req : list string) (k : string) (m : Metric) : Prop :=
  Metric.Name m = n /\ groupkeyOf m = k /\
  existsb (fun f => Metric.HasField m f) req = true.

(** Calls of [Apply] one after the other; for each call, whether the test
    after the loop fired and what the call returned. *)
Fixpoint Apply_calls (t : CycleStats) (batches : list (list Metric))
  : list (bool * list (option Metric)) * CycleStats :=
  match batches with
  | [] => ([], t)
  | b :: rest =>
      let flushed := complete (Apply_loop t b) in
      let '(out, t') := Apply t b in
      let '(outs, t'') := Apply_calls t' rest in
      ((flushed, out) :: outs, t'')
  end.

(** The metrics of a history that were buffered under key [k], in order. *)
Definition bufferOf (k : string) (log : list Metric) : list Metric :=
  List.filter (fun m => String.eqb (groupkeyOf m) k) log.

(** The cache holds exactly the metrics of the history [log], each under
    its key, and no key without a metric. *)
Definition shape (c : gmap string (list Metric)) (log : list Metric) : Prop :=
  forall k : string,
    c !! k = match bufferOf k log with [] => None | ms => Some ms end.

(** The operations of the engine. *)
Inductive Op :=
| OpApply (batch : list Metric)
| OpPut (m : Metric)
| OpFlushAll
| OpReset.

Definition exec (t : CycleStats) (op : Op) : CycleStats :=
  match op with
  | OpApply batch => snd (Apply t batch)
  | OpPut m => groupBy t m
  | OpFlushAll => snd (push t)
  | OpReset => Reset t
  end.

(** The metrics buffered since the last flush, oldest first, as an
    operation on [t] extends or clears them. *)
Definition sinceFlush (t : CycleStats) (op : Op) (log : list Metric) : list Metric :=
  match op with
  | OpApply batch =>
      if complete (Apply_loop t batch) then []
      else if compilable t then log ++ List.filter (accepts t) batch else log
  | OpPut m => if compilable t then log ++ [m] else log
  | OpFlushAll => []
  | OpReset => []
  end.

Fixpoint run (t : CycleStats) (log : list Metric) (ops : list Op) : CycleStats * list Metric :=
  match ops with
  | [] => (t, log)
  | op :: rest => run (exec t op) (sinceFlush t op log) rest
  end.

End Notions.

(* ===================================================================== *)
(** ** Sample data                                                        *)
(* ===================================================================== *)

(** Two filter packages: one whose compiler accepts every pattern list, one
    whose compiler rejects the patterns it is given. *)
Definition acceptingFilters : FilterPkg :=
  {| Filter := unit; filter_Compile := fun _ => inl tt |}.

Definition rejectingFilters : FilterPkg :=
  {| Filter := unit; filter_Compile := fun _ => inr "unexpected end of input"%string |}.

Module Sample.

Definition noon : Z := 1577880000.   (* 2020-01-01 12:00:00 UTC, in Unix seconds *)

(** A time [nanos] nanoseconds after noon, in UTC. *)
Definition at_ (nanos : Z) : gotime.Time :=
  {| gotime.unixNano := noon * gotime.Second + nanos; gotime.loc := gotime.UTC |}.

Definition metric (name : string) (fields : list (string * Z)) (tm : gotime.Time) : Metric :=
  {| Metric.Name := name; Metric.TagList := [];
     Metric.FieldList :=
       List.map (fun '(k, v) => {| Metric.Key := k; Metric.Value := Metric.VInt v |}) fields;
     Metric.Time := tm |}.

Definition tagged (host : string) (m : Metric) : Metric :=
  {| Metric.Name := Metric.Name m;
     Metric.TagList := [ {| Metric.TagKey := "host"; Metric.TagValue := host |} ];
     Metric.FieldList := Metric.FieldList m; Metric.Time := Metric.Time m |}.

(** Partial reports of one second. *)
Definition steam_error : Metric := metric "steam_stats" [("error", 1)]%string (at_ 5).
Definition steam_flows : Metric := metric "steam_stats" [("flows", 2)]%string (at_ 999999999).
Definition heater : Metric := metric "sys_status_mngr" [("heater", 1)]%string (at_ 100).
Definition vacuum : Metric := metric "sys_status_mngr" [("vacuum", 0)]%string (at_ 200).
Definition water : Metric := metric "sys_status_mngr" [("water", 1)]%string (at_ 300).
Definition compressor : Metric :=
  metric "sys_status_mngr" [("compressor", 1); ("heater", 0)]%string (at_ 400).

(** The instant of [steam_error] as a clock on Central European Time
    carries it. *)
Definition steam_error_cet : Metric :=
  metric "steam_stats" [("error", 1)]%string
    {| gotime.unixNano := noon * gotime.Second + 5;
       gotime.loc := gotime.FixedZone "CET" 3600 |}.

(** Metrics of measurements the table does not list. *)
Definition cpu : Metric := metric "cpu" [("usage", 7)]%string (at_ 10).
Definition state_change : Metric := metric "state_change" [("state", 3)]%string (at_ 20).

(** The engine as [New] builds it, and the same after it has buffered
    [steam_error]. *)
Definition engine : @CycleStats acceptingFilters := New.
Definition buffering : @CycleStats acceptingFilters := snd (Apply engine [steam_error]).

(** The engine of the spec's scenario: one measurement, two required
    fields. *)
Definition steam_engine : @CycleStats acceptingFilters :=
  {| Name := EmptyString; GroupBy := ["*"%string]; Log := [];
     Fields := {[ "steam"%string := ["a"; "b"]%string ]}; cache := ∅; filters := None |}.

(** An engine whose grouping pattern does not compile. *)
Definition misconfigured : @CycleStats rejectingFilters :=
  {| Name := EmptyString; GroupBy := ["[a-"%string]; Log := [];
     Fields := defaultFields; cache := ∅; filters := None |}.

(** Two metrics of different names whose keys are the same string: the
    zone of the first is called after the tail of the second's key. *)
Definition exotic : Metric :=
  metric "a" [("x", 1)]%string
    {| gotime.unixNano := noon * gotime.Second;
       gotime.loc := gotime.FixedZone "X&2020-01-01 12:00:00 +0000 UTC" 0 |}.
Definition longname : Metric :=
  metric "a&2020-01-01 12:00:00 +0000 X" [("x", 1)]%string (at_ 0).

End Sample.

(* ===================================================================== *)
(** ** More notions for the processor                                     *)
(* ===================================================================== *)

Section MoreNotions.
Context `{FilterPkg}.

(** The line [groupBy] logs when the patterns of [t] do not compile. *)
Definition keyErrorLine (t : CycleStats) : string :=
  match filter_Compile (GroupBy t) with
  | inr err =>
      ("Could not generate group key: "
         +:+ ("could not compile pattern: " +:+ showStrings (GroupBy t) +:+ " " +:+ err))%string
  | inl _ => EmptyString
  end.

(** The batches every call of a sequence returned. *)
Definition returned (calls : list (bool * list (option Metric))) : list (option Metric) :=
  concat (List.map snd calls).

End MoreNotions.

(** The field keys of a metric, in order. *)
Definition fieldKeys (m : Metric) : list string :=
  List.map Metric.Key (Metric.FieldList m).

(* ===================================================================== *)
(** ** More of telegraf's [Metric] and of Go's values                     *)
(* ===================================================================== *)

From Stdlib Require SpecFloat.

(** Go's [float64], by value: a zero or an infinity with its sign, a NaN,
    or a finite number sign * mantissa * 2^exponent in its canonical
    form. *)
Module float64.

Definition t := SpecFloat.spec_float.

(** The value of an IEEE-754 binary64 bit pattern. *)
Definition of_bits (b : Z) : t :=
  let s := Z.testbit b 63 in
  let e := Z.land (Z.shiftr b 52) 2047 in
  let m := Z.land b 4503599627370495 in
  if e =? 0 then
    match m with
    | Zpos p => SpecFloat.S754_finite s p (-1074)
    | _ => SpecFloat.S754_zero s
    end
  else if e =? 2047 then
    if m =? 0 then SpecFloat.S754_infinity s else SpecFloat.S754_nan
  else
    match m + 4503599627370496 with
    | Zpos p => SpecFloat.S754_finite s p (e - 1075)
    | _ => SpecFloat.S754_nan
    end.

(** The conversion [float64(v)] of an [int64]: the nearest float, ties to
    even. *)
Definition of_int64 (v : Z) : t := SpecFloat.binary_normalize 53 1024 v 0 false.

(** [x < y] *)
Definition lt (x y : t) : bool := SpecFloat.SFltb x y.

End float64.

Module MetricMaps.

(** [m.Tags()]: the tags as a map. *)
Definition Tags (m : Metric) : gmap string string :=
  fold_left (fun tags tag => <[Metric.TagKey tag := Metric.TagValue tag]> tags)
            (Metric.TagList m) ∅.

(** [m.Fields()]: the fields as a map. *)
Definition Fields (m : Metric) : gmap string Metric.FieldValue :=
  fold_left (fun fields field => <[Metric.Key field := Metric.Value field]> fields)
            (Metric.FieldList m) ∅.

End MetricMaps.

(* ===================================================================== *)
(** ** The aggregator ([plugins/aggregators/cyclestats])                  *)
(* ===================================================================== *)

(** [m.HashID()], telegraf's hash of a metric's name and tags, which the
    aggregator takes for the identity of a series. *)
Class MetricId := { HashID : Metric -> Z }.

Module Aggregator.
Section Aggregator.
Context `{MetricId}.

(** The struct: three caches keyed by the hash of the series. *)
Record CycleStats := {
  fieldCache : gmap Z (gmap string float64.t);
  nameCache : gmap Z string;
  tagCache : gmap Z (gmap string string)
}.

(** [Reset] *)
Definition Reset (m : CycleStats) : CycleStats :=
  {| fieldCache := ∅; nameCache := ∅; tagCache := ∅ |}.

(** [NewCycleStats] *)
Definition NewCycleStats : CycleStats :=
  Reset {| fieldCache := ∅; nameCache := ∅; tagCache := ∅ |}.

(** [Init] *)
Definition Init (m : CycleStats) : option error := None.

(** [convert] *)
Definition convert (v : Metric.FieldValue) : float64.t * bool :=
  match v with
  | Metric.VFloat bits => (float64.of_bits bits, true)
  | Metric.VInt i => (float64.of_int64 i, true)
  | _ => (SpecFloat.S754_zero false, false)
  end.

(** The body of the loop over the fields of the first metric of a
    series. *)
Definition cacheField (fc : gmap string float64.t) (k : string) (v : Metric.FieldValue)
  : gmap string float64.t :=
  let '(fv, ok) := convert v in
  if ok then <[k := fv]> fc else fc.

(** The body of the loop over the fields of a later metric. *)
Definition minField (fc : gmap string float64.t) (k : string) (v : Metric.FieldValue)
  : gmap string float64.t :=
  let '(fv, ok) := convert v in
  if ok then
    match fc !! k with
    | None => <[k := fv]> fc
    | Some cur => if float64.lt fv cur then <[k := fv]> fc else fc
    end
  else fc.

(** [Add].  [None] is the panic of a write to the nil map that
    [m.fieldCache[id]] is when a series has a name but no field cache. *)
Definition Add (m : CycleStats) (in_ : Metric) : option CycleStats :=
  let id := HashID in_ in
  match nameCache m !! id with
  | None =>
      Some {| nameCache := <[id := Metric.Name in_]> (nameCache m);
              tagCache := <[id := MetricMaps.Tags in_]> (tagCache m);
              fieldCache :=
                <[id := map_fold (fun k v fc => cacheField fc k v) ∅ (MetricMaps.Fields in_)]>
                  (fieldCache m) |}
  | Some _ =>
      match fieldCache m !! id with
      | Some fc =>
          Some {| nameCache := nameCache m;
                  tagCache := tagCache m;
                  fieldCache :=
                    <[id := map_fold (fun k v fc => minField fc k v) fc (MetricMaps.Fields in_)]>
                      (fieldCache m) |}
      | None =>
          if existsb (fun kv : string * Metric.FieldValue => snd (convert (snd kv)))
                     (map_to_list (MetricMaps.Fields in_))
          then None else Some m
      end
  end.

(** One call [acc.AddFields(measurement, fields, tags)] on the
    accumulator. *)
Record AddFieldsCall := {
  measurement : string;
  fields : gmap string float64.t;
  tags : gmap string string
}.

(** The map [Push] builds for one series. *)
Definition minFields (fc : gmap string float64.t) : gmap string float64.t :=
  map_fold (fun k v fields => <[(k +:+ "_min")%string := v]> fields) ∅ fc.

(** [Push]: the calls it makes on the accumulator, after those made
    before.  The order of [range] over the series is open in Go; here it
    is that of [map_fold]. *)
Definition Push (m : CycleStats) (acc : list AddFieldsCall) : list AddFieldsCall :=
  map_fold (fun id _ acc =>
              acc ++ [ {| measurement := nameCache m !!! id;
                          fields := minFields (fieldCache m !!! id);
                          tags := tagCache m !!! id |} ])
           acc (nameCache m).

(** A sequence of [Add]s. *)
Fixpoint Adds (m : CycleStats) (ins : list Metric) : option CycleStats :=
  match ins with
  | [] => Some m
  | in_ :: rest => match Add m in_ with Some m' => Adds m' rest | None => None end
  end.

(** [convert] as an option. *)
Definition numeric (v : Metric.FieldValue) : option float64.t :=
  let '(fv, ok) := convert v in if ok then Some fv else None.

(** The numeric values that the metrics [ins] of series [id] hold under
    field [k], in order. *)
Definition seen (id : Z) (k : string) (ins : list Metric) : list float64.t :=
  omap (fun in_ => if decide (HashID in_ = id)
                   then MetricMaps.Fields in_ !! k ≫= numeric else None) ins.

(** The cached value after one more numeric value: the lower of the two,
    the cached one when neither is lower. *)
Definition lower (cur : option float64.t) (fv : float64.t) : option float64.t :=
  match cur with
  | None => Some fv
  | Some c => if float64.lt fv c then Some fv else Some c
  end.

Definition minOf (vs : list float64.t) : option float64.t := fold_left lower vs None.

(** The call [Push] makes for series [id]. *)
Definition callOf (m : CycleStats) (id : Z) : AddFieldsCall :=
  {| measurement := nameCache m !!! id;
     fields := minFields (fieldCache m !!! id);
     tags := tagCache m !!! id |}.

(** The first metric of series [id]. *)
Definition first (id : Z) (ins : list Metric) : option Metric :=
  List.find (fun in_ => bool_decide (HashID in_ = id)) ins.

(** The caches after the metrics [ins]: each series under the name and
    tags of its first metric, each of its fields at the lowest value. *)
Definition tracks (st : CycleStats) (ins : list Metric) : Prop :=
  (forall id, nameCache st !! id = Metric.Name <$> first id ins) /\
  (forall id, tagCache st !! id = MetricMaps.Tags <$> first id ins) /\
  (forall id, match fieldCache st !! id with
              | None => first id ins = None
              | Some fc => is_Some (first id ins) /\
                           forall k, fc !! k = minOf (seen id k ins)
              end).

End Aggregator.
End Aggregator.

(* ===================================================================== *)
(** ** The metadata processor                                             *)
(* ===================================================================== *)

Module MetricTags.

(** The loop of [AddTag]: the tags are kept sorted by key; a tag of that
    key is overwritten, otherwise the new tag goes in before the first
    greater key. *)
Fixpoint insertTag (tags : list Metric.Tag) (key value : string) : list Metric.Tag :=
  match tags with
  | [] => [ {| Metric.TagKey := key; Metric.TagValue := value |} ]
  | tag :: rest =>
      if String.ltb (Metric.TagKey tag) key then tag :: insertTag rest key value
      else if String.eqb key (Metric.TagKey tag)
           then {| Metric.TagKey := key; Metric.TagValue := value |} :: rest
           else {| Metric.TagKey := key; Metric.TagValue := value |} :: tag :: rest
  end.

(** [m.AddTag(key, value)] *)
Definition AddTag (m : Metric) (key value : string) : Metric :=
  {| Metric.Name := Metric.Name m;
     Metric.TagList := insertTag (Metric.TagList m) key value;
     Metric.FieldList := Metric.FieldList m;
     Metric.Time := Metric.Time m |}.

(** [m.GetTag(key)] *)
Definition GetTag (m : Metric) (key : string) : option string :=
  Metric.TagValue <$> List.find (fun tag => String.eqb key (Metric.TagKey tag)) (Metric.TagList m).

End MetricTags.

(** What the processor needs of [net/http], [io] and [encoding/json]. *)
Module Http.

Record Request := {
  Method : string;
  URL : string;
  Header : list (string * string);
  Body : string
}.

(** The outcome of [client.Do]: an error, or a response with its status
    code, its status line and what [io.ReadAll] makes of its body (an
    error or the bytes). *)
Inductive Exchange :=
| DoFails (err : error)
| Answers (StatusCode : Z) (Status : string) (read : error + string).

End Http.

Module Metadata.

(** The record the API answers with. *)
Record Response := {
  Id : Z;
  Cycle : Z;
  DeviceConfig : Z;
  GrindCycle : Z;
  SteamCycle : Z;
  WasteType : string;
  Type_ : string;
  StartTime : string;
  EndTime : string;
  Completed : bool;
  Successful : bool
}.

(** [Response{}] *)
Definition noResponse : Response :=
  {| Id := 0; Cycle := 0; DeviceConfig := 0; GrindCycle := 0; SteamCycle := 0;
     WasteType := EmptyString; Type_ := EmptyString; StartTime := EmptyString;
     EndTime := EmptyString; Completed := false; Successful := false |}.

(** The outside of the processor: whether [http.NewRequest] accepts a
    URL, how the [n]th request sent is answered, and what
    [json.Unmarshal] reads in a body. *)
Class Outside := {
  url_valid : string -> bool;
  client_Do : nat -> Http.Request -> Http.Exchange;
  json_Unmarshal : string -> error + Response
}.

Section Metadata.
Context `{Outside}.

(** The struct. *)
Record MetadataProcessor := {
  PortalTags : list string;
  Timeout : Z;
  Log : list string;
  ApiKey : string;
  ApiUrl : string;
  metaCache : gmap string Z
}.

(** What the processor changes outside its struct: the package variable
    [meta_resp] and the requests sent so far. *)
Record World := {
  meta_resp : Response;
  sent : list Http.Request
}.

(** [Init] *)
Definition Init (r : MetadataProcessor) : MetadataProcessor * option error :=
  let r := {| PortalTags := PortalTags r; Timeout := Timeout r;
              Log := Log r ++ ["Initializing Portal Metadata Processor"%string];
              ApiKey := ApiKey r; ApiUrl := ApiUrl r; metaCache := metaCache r |} in
  match PortalTags r with
  | [] => (r, Some "no tags specified in configuration"%string)
  | _ :: _ => (r, None)
  end.

Definition set_metaCache (c : gmap string Z) (r : MetadataProcessor) : MetadataProcessor :=
  {| PortalTags := PortalTags r; Timeout := Timeout r; Log := Log r;
     ApiKey := ApiKey r; ApiUrl := ApiUrl r; metaCache := c |}.

(** [setMetaCache] *)
Definition setMetaCache (r : MetadataProcessor) (resp : Response) : MetadataProcessor :=
  set_metaCache (<["grind_cycle"%string := GrindCycle resp]>
                   (<["steam_cycle"%string := SteamCycle resp]>
                      (<["metadata"%string := Id resp]> (metaCache r)))) r.

(** [clearMetaCache] *)
Definition clearMetaCache (r : MetadataProcessor) : MetadataProcessor :=
  set_metaCache ∅ r.

(** [t.In(time.UTC)] *)
Definition InUTC (t : gotime.Time) : gotime.Time :=
  {| gotime.unixNano := gotime.unixNano t; gotime.loc := gotime.UTC |}.

(** [t.Format("2006-01-02T15:04:05.000Z")]: date and time of day in the
    location of [t], three digits of the second's fraction, and the
    letter Z. *)
Definition formatMillis (t : gotime.Time) : string :=
  let sec := gotime.unixNano t / gotime.Second in
  let nsec := gotime.unixNano t mod gotime.Second in
  let abs := sec + gotime.zoneOffset (gotime.loc t) in
  let '(year, month, day) := gotime.civil (abs / 86400) in
  let tod := abs mod 86400 in
  (gotime.appendInt year 4 +:+ "-" +:+ gotime.appendInt month 2 +:+ "-"
     +:+ gotime.appendInt day 2 +:+ "T" +:+ gotime.appendInt (tod / 3600) 2 +:+ ":"
     +:+ gotime.appendInt (tod mod 3600 / 60) 2 +:+ ":" +:+ gotime.appendInt (tod mod 60) 2
     +:+ "." +:+ String.substring 0 3 (gotime.appendInt nsec 9) +:+ "Z")%string.

(** The double quote. *)
Definition quote : string := String "034"%char EmptyString.

(** The request [getMetadata] builds. *)
Definition metadataRequest (tm : gotime.Time) (apiKey apiUrl : string) : Http.Request :=
  {| Http.Method := "POST";
     Http.URL := apiUrl;
     Http.Header := [("Authorization", "TOKEN " +:+ apiKey);
                     ("Content-Type", "application/json")]%string;
     Http.Body := ("{" +:+ quote +:+ "timestamp" +:+ quote +:+ ": "
                     +:+ quote +:+ formatMillis tm +:+ quote +:+ "}")%string |}.

(** [getMetadata].  [None] is the panic on the nil request that
    [http.NewRequest] leaves when it rejects the URL. *)
Definition getMetadata (r : MetadataProcessor) (w : World) (tm : gotime.Time)
    (apiKey apiUrl : string)
  : option (MetadataProcessor * World * (Response * option error)) :=
  if negb (url_valid apiUrl) then None
  else
    let req := metadataRequest tm apiKey apiUrl in
    let exchange := client_Do (length (sent w)) req in
    let w := {| meta_resp := meta_resp w; sent := sent w ++ [req] |} in
    match exchange with
    | Http.DoFails err =>
        Some (r, w, (noResponse, Some ("error during request: " +:+ err)%string))
    | Http.Answers code status read =>
        if (305 <=? code) || (code <=? 200) then
          Some (r, w, (noResponse, Some ("unsuccessful status code: " +:+ status)%string))
        else
          match read with
          | inl err =>
              Some (r, w, (noResponse,
                           Some ("error while reading response body: " +:+ err)%string))
          | inr body =>
              match json_Unmarshal body with
              | inl err =>
                  Some (r, w, (noResponse, Some ("error during request: " +:+ err)%string))
              | inr result => Some (setMetaCache r result, w, (result, None))
              end
          end
    end.

(** [fmt.Sprint(v)] of an [int] *)
Definition Sprint (v : Z) : string :=
  if v <? 0 then String "-" (gotime.decimal (Z.abs v)) else gotime.decimal v.

(** The body of the loop over the portal tags: the [switch] on the pair
    of tag and measurement. *)
Definition attach (cache : gmap string Z) (metric_type : string) (metric : Metric)
    (tag : string) : Metric :=
  let v := default 0 (cache !! tag) in
  if v =? 0 then metric
  else if String.eqb tag "steam_cycle" && String.eqb metric_type "steam"
  then Metric.AddField metric tag (Metric.VInt v)
  else if String.eqb tag "metadata" && String.eqb metric_type "steam"
  then MetricTags.AddTag metric tag (Sprint v)
  else if String.eqb tag "grind_cycle" && String.eqb metric_type "grind"
  then Metric.AddField metric tag (Metric.VInt v)
  else if String.eqb tag "metadata" && String.eqb metric_type "grind"
  then MetricTags.AddTag metric tag (Sprint v)
  else if String.eqb tag "metadata" && String.eqb metric_type "notification"
  then Metric.AddField metric tag (Metric.VInt v)
  else metric.

(** One iteration of [Apply] ([metric.Drop()] changes nothing here). *)
Definition Apply_body (r : MetadataProcessor) (w : World) (metric : Metric)
  : option (MetadataProcessor * World * Metric) :=
  let metric_type := Metric.Name metric in
  let r := if String.eqb metric_type "state_change" then clearMetaCache r else r in
  let fetched :=
    match metaCache r !! "metadata"%string with
    | Some _ => Some (r, w)
    | None =>
        match getMetadata r w (InUTC (Metric.Time metric)) (ApiKey r) (ApiUrl r) with
        | None => None
        | Some (r, w, (resp, None)) =>
            Some (r, {| meta_resp := resp; sent := sent w |})
        | Some (r, w, (_, Some _)) => Some (r, w)
        end
    end in
  match fetched with
  | None => None
  | Some (r, w) =>
      Some (r, w, fold_left (attach (metaCache r) metric_type) (PortalTags r) metric)
  end.

(** [Apply]: the processor and the world after the batch, and the metrics
    of the batch as the loop leaves them. *)
Fixpoint Apply (r : MetadataProcessor) (w : World) (batch : list Metric)
  : option (MetadataProcessor * World * list Metric) :=
  match batch with
  | [] => Some (r, w, [])
  | metric :: rest =>
      match Apply_body r w metric with
      | None => None
      | Some (r, w, metric) =>
          match Apply r w rest with
          | None => None
          | Some (r, w, out) => Some (r, w, metric :: out)
          end
      end
  end.

(** The tags the loop over the portal tags leaves on a metric. *)
Definition enrich (r : MetadataProcessor) (metric : Metric) : Metric :=
  fold_left (attach (metaCache r) (Metric.Name metric)) (PortalTags r) metric.

End Metadata.
End Metadata.


(** ** More sample values *)

Module MoreSample.

(** The engine of [New] with other grouping patterns. *)
Definition regrouped : @CycleStats acceptingFilters :=
  {| Name := EmptyString; GroupBy := ["host"; "region"]%string; Log := [];
     Fields := defaultFields; cache := ∅; filters := None |}.

(** Three partial reports of the measurement "steam" in one second. *)
Definition steam_a : Metric := Sample.metric "steam" [("a", 1)]%string (Sample.at_ 1).
Definition steam_b : Metric := Sample.metric "steam" [("b", 2)]%string (Sample.at_ 2).
Definition steam_ac : Metric :=
  Sample.metric "steam" [("a", 3); ("c", 4)]%string (Sample.at_ 3).

(** The aggregate of the four reports of [sys_status_mngr]. *)
Definition status_report : Metric :=
  Eval vm_compute in
    default Sample.heater
      (fst (Aggregate [Sample.heater; Sample.vacuum; Sample.water; Sample.compressor])).

(** The aggregate of [heater] and [compressor]. *)
Definition heater_compressor : Metric :=
  Eval vm_compute in
    default Sample.heater (fst (Aggregate [Sample.heater; Sample.compressor])).

End MoreSample.

Module MetadataSample.

(** A record of the portal. *)
Definition record : Metadata.Response :=
  {| Metadata.Id := 7; Metadata.Cycle := 1; Metadata.DeviceConfig := 2;
     Metadata.GrindCycle := 4; Metadata.SteamCycle := 3;
     Metadata.WasteType := "rmw"; Metadata.Type_ := "steam";
     Metadata.StartTime := "2020-01-01T11:59:00.000Z"; Metadata.EndTime := EmptyString;
     Metadata.Completed := false; Metadata.Successful := false |}.

(** [url.Parse] finds no protocol scheme in a URL that starts with a
    colon, and [http.NewRequest] fails on it; of the errors
    [http.NewRequest] has, this is the one the examples meet. *)
Definition missing_scheme (u : string) : bool := String.prefix ":" u.

(** A portal that answers every request with 201 and [record]. *)
Definition portal : Metadata.Outside :=
  {| Metadata.url_valid := fun u => negb (missing_scheme u);
     Metadata.client_Do := fun _ _ => Http.Answers 201 "201 Created" (inr "{...}"%string);
     Metadata.json_Unmarshal := fun _ => inr record |}.

(** A portal that answers every request with a plain 200. *)
Definition plain200 : Metadata.Outside :=
  {| Metadata.url_valid := fun u => negb (missing_scheme u);
     Metadata.client_Do := fun _ _ => Http.Answers 200 "200 OK" (inr "{...}"%string);
     Metadata.json_Unmarshal := fun _ => inr record |}.

(** The processor as registered, configured; and the same with [record]
    cached. *)
Definition fresh : Metadata.MetadataProcessor :=
  {| Metadata.PortalTags := ["metadata"; "grind_cycle"; "steam_cycle"]%string;
     Metadata.Timeout := 10 * gotime.Second; Metadata.Log := [];
     Metadata.ApiKey := "secret"; Metadata.ApiUrl := "https://portal.example/api/metadata";
     Metadata.metaCache := ∅ |}.
Definition cached : Metadata.MetadataProcessor := Metadata.setMetaCache fresh record.

(** The processor with [record] cached and a URL without a scheme
    configured. *)
Definition bad_url : Metadata.MetadataProcessor :=
  {| Metadata.PortalTags := ["metadata"]%string; Metadata.Timeout := 0;
     Metadata.Log := []; Metadata.ApiKey := "secret"; Metadata.ApiUrl := "://x";
     Metadata.metaCache := Metadata.metaCache cached |}.

Definition world : Metadata.World :=
  {| Metadata.meta_resp := Metadata.noResponse; Metadata.sent := [] |}.

Definition steam : Metric := Sample.metric "steam" [("temp", 121)]%string (Sample.at_ 0).
Definition grind : Metric := Sample.metric "grind" [("rpm", 60)]%string (Sample.at_ 1000).

End MetadataSample.
(* ===================================================================== *)
(** ** Strings: splitting a key at the separator                         *)
(* ===================================================================== *)

Lemma append_cons (c : ascii) (a b : string) : (String c a +:+ b = String c (a +:+ b))%string.
Proof. reflexivity. Qed.

Lemma append_empty_l (b : string) : (EmptyString +:+ b = b)%string.
Proof. reflexivity. Qed.

Lemma hasAmp_app (a b : string) : hasAmp (a +:+ b) = hasAmp a || hasAmp b.
Proof.
  induction a as [|c a IH]; [reflexivity|].
  rewrite append_cons. simpl. now rewrite IH, orb_assoc.
Qed.

Lemma hasAmp_cons_false c s : hasAmp (String c s) = false -> c <> "&"%char /\ hasAmp s = false.
Proof.
  simpl. intros [Hc Hs]%orb_false_elim. split; [|exact Hs].
  intros ->. discriminate.
Qed.

(** A key splits in one way at its first separator... *)
Lemma split_first_amp (n1 n2 s1 s2 : string) :
  hasAmp n1 = false -> hasAmp n2 = false ->
  (n1 +:+ "&" +:+ s1 = n2 +:+ "&" +:+ s2)%string -> n1 = n2.
Proof.
  revert n2. induction n1 as [|c n1 IH]; intros [|c' n2] H1 H2 Heq;
    rewrite ?append_cons, ?append_empty_l in Heq.
  - reflexivity.
  - injection Heq as <- _. now apply hasAmp_cons_false in H2 as [? _].
  - injection Heq as -> _. now apply hasAmp_cons_false in H1 as [? _].
  - injection Heq as -> Heq.
    apply hasAmp_cons_false in H1 as [_ H1]. apply hasAmp_cons_false in H2 as [_ H2].
    f_equal. now apply IH.
Qed.

(** ... and in one way at its last. *)
Lemma split_last_amp (n1 n2 s1 s2 : string) :
  hasAmp s1 = false -> hasAmp s2 = false ->
  (n1 +:+ "&" +:+ s1 = n2 +:+ "&" +:+ s2)%string -> n1 = n2.
Proof.
  intros H1 H2. revert n2.
  induction n1 as [|c n1 IH]; intros [|c' n2] Heq;
    rewrite ?append_cons, ?append_empty_l in Heq.
  - reflexivity.
  - injection Heq as _ Heq. rewrite Heq, hasAmp_app in H1. simpl in H1.
    now rewrite orb_true_r in H1.
  - injection Heq as _ Heq. rewrite <- Heq, hasAmp_app in H2. simpl in H2.
    now rewrite orb_true_r in H2.
  - injection Heq as -> Heq. f_equal. now apply IH.
Qed.

(* ===================================================================== *)
(** ** Time: truncation and printing                                      *)
(* ===================================================================== *)

Module gotime_facts.
Import gotime.

(** Truncating to the second keeps the location and rounds the instant
    down to a whole second. *)
Lemma Truncate_second (t : Time) :
  Truncate t (1000 * Millisecond)
  = {| unixNano := unixNano t / Second * Second; loc := loc t |}.
Proof.
  unfold Truncate.
  change (1000 * Millisecond) with 1000000000.
  change (unixToInternal * Second) with (62135596800 * 1000000000).
  change Second with 1000000000.
  change (1000000000 <=? 0) with false. cbv iota zeta. f_equal.
  rewrite Z_mod_plus_full.
  pose proof (Z_div_mod_eq_full (unixNano t) 1000000000). lia.
Qed.

(** Two times in one location whose instants lie in the same second
    truncate to the same time. *)
Lemma Truncate_same_second (t1 t2 : Time) :
  loc t1 = loc t2 ->
  unixNano t1 / Second = unixNano t2 / Second ->
  Truncate t1 (1000 * Millisecond) = Truncate t2 (1000 * Millisecond).
Proof. intros Hl Hs. rewrite !Truncate_second. now rewrite Hl, Hs. Qed.

Lemma Truncate_same_second_inv (t1 t2 : Time) :
  Truncate t1 (1000 * Millisecond) = Truncate t2 (1000 * Millisecond) ->
  loc t1 = loc t2 /\ unixNano t1 / Second = unixNano t2 / Second.
Proof.
  rewrite !Truncate_second. intros Heq. injection Heq as Hn Hl. split; [exact Hl|].
  unfold Second, Millisecond, Nanosecond in *. lia.
Qed.

(** *** The printed form holds a separator only if the zone name does *)

Lemma hasAmp_uint (d : Decimal.uint) : hasAmp (NilEmpty.string_of_uint d) = false.
Proof. induction d; simpl; auto. Qed.

Lemma hasAmp_decimal (n : Z) : hasAmp (decimal n) = false.
Proof.
  unfold decimal, NilZero.string_of_uint.
  destruct (N.to_uint (Z.to_N n)) eqn:E; try reflexivity;
    rewrite <- E; apply hasAmp_uint.
Qed.

Lemma hasAmp_zeros (n : nat) : hasAmp (zeros n) = false.
Proof. induction n; simpl; auto. Qed.

Lemma hasAmp_appendInt (x : Z) (w : nat) : hasAmp (appendInt x w) = false.
Proof.
  unfold appendInt. destruct (x <? 0); simpl;
    now rewrite hasAmp_app, hasAmp_zeros, hasAmp_decimal.
Qed.

Lemma hasAmp_trimZeros (s : string) : hasAmp s = false -> hasAmp (trimZeros s) = false.
Proof.
  induction s as [|c s IH]; [reflexivity|].
  intros [Hc Hs]%orb_false_elim. simpl.
  specialize (IH Hs). destruct (trimZeros s) eqn:E.
  - destruct (Ascii.eqb c "0"); simpl; [reflexivity|]. now rewrite Hc.
  - simpl in *. now rewrite Hc, IH.
Qed.

Lemma hasAmp_appendNano (n : Z) : hasAmp (appendNano n) = false.
Proof.
  unfold appendNano. destruct (n =? 0); [reflexivity|].
  simpl. apply hasAmp_trimZeros, hasAmp_appendInt.
Qed.

Lemma hasAmp_appendZone (o : Z) : hasAmp (appendZone o) = false.
Proof.
  unfold appendZone. cbv zeta.
  rewrite !hasAmp_app, !hasAmp_appendInt. now destruct (_ <? 0).
Qed.

Lemma hasAmp_appendAbbrev (l : Location) :
  hasAmp (zoneName l) = false -> hasAmp (appendAbbrev l) = false.
Proof.
  intros Hl. unfold appendAbbrev. destruct (String.eqb _ _); [apply hasAmp_appendZone|exact Hl].
Qed.

Lemma hasAmp_String (t : Time) :
  hasAmp (zoneName (loc t)) = false -> hasAmp (String t) = false.
Proof.
  intros Hl. unfold String. cbv zeta. destruct (civil _) as [[year month] day].
  rewrite !hasAmp_app, !hasAmp_appendInt, hasAmp_appendNano, hasAmp_appendZone,
    (hasAmp_appendAbbrev _ Hl).
  reflexivity.
Qed.

End gotime_facts.

(* ===================================================================== *)
(** ** Metrics: fields and the merge                                      *)
(* ===================================================================== *)

Module Metric_facts.
Import Metric.

Lemma find_setField (key k : string) (v : FieldValue) (fs : list Field) :
  List.find (fun f => String.eqb key (Key f)) (setField fs k v)
  = if String.eqb key k then Some {| Key := k; Value := v |}
    else List.find (fun f => String.eqb key (Key f)) fs.
Proof.
  induction fs as [|f fs IH]; simpl.
  - now destruct (String.eqb key k).
  - destruct (String.eqb_spec k (Key f)) as [->|Hne]; simpl.
    + now destruct (String.eqb key (Key f)).
    + rewrite IH.
      destruct (String.eqb_spec key (Key f)) as [->|_]; [|reflexivity].
      destruct (String.eqb_spec (Key f) k) as [E|_]; [now symmetry in E|reflexivity].
Qed.

(** Reading back after [AddField]. *)
Lemma GetField_AddField (m : t) (k key : string) (v : FieldValue) :
  GetField (AddField m k v) key = if String.eqb key k then Some v else GetField m key.
Proof.
  unfold GetField, AddField; simpl. rewrite find_setField.
  now destruct (String.eqb key k).
Qed.

Lemma HasField_GetField (m : t) (key : string) :
  HasField m key = bool_decide (is_Some (GetField m key)).
Proof.
  unfold HasField, GetField.
  induction (FieldList m) as [|f fs IH]; simpl; [reflexivity|].
  destruct (String.eqb key (Key f)); simpl; [reflexivity|exact IH].
Qed.

Lemma lastWrite_snoc (key : string) (ws : list Field) (f : Field) :
  lastWrite key (ws ++ [f])
  = if String.eqb key (Key f) then Some (Value f) else lastWrite key ws.
Proof.
  unfold lastWrite. rewrite rev_unit. simpl.
  now destruct (String.eqb key (Key f)).
Qed.

Lemma lastWrite_is_Some (key : string) (ws : list Field) :
  bool_decide (is_Some (lastWrite key ws)) = existsb (fun f => String.eqb key (Key f)) ws.
Proof.
  induction ws as [|f ws IH] using rev_ind; [reflexivity|].
  rewrite lastWrite_snoc, existsb_app. simpl. rewrite orb_false_r, <- IH.
  destruct (String.eqb key (Key f)); [|now rewrite orb_false_r].
  now rewrite orb_true_r.
Qed.

(** A run of writes keeps name, tags and time of the metric written to,
    and leaves under each key the last value written, or else what the
    metric held already. *)
Lemma writes_spec (ws : list Field) (a : t) :
  let r := fold_left writeField ws a in
  Name r = Name a /\ TagList r = TagList a /\ Time r = Time a /\
  forall key, GetField r key
              = match lastWrite key ws with Some v => Some v | None => GetField a key end.
Proof.
  induction ws as [|f ws IH] using rev_ind; simpl.
  - repeat split; reflexivity.
  - rewrite fold_left_app. simpl.
    destruct IH as (Hn & Htg & Htm & Hget).
    repeat split; try assumption.
    intros key. unfold writeField at 1. rewrite GetField_AddField, lastWrite_snoc.
    destruct (String.eqb_spec key (Key f)) as [->|_]; [reflexivity|apply Hget].
Qed.

Lemma fold_mergeInto_Some (rest : list t) (a : t) :
  fold_left mergeInto rest (Some a) = Some (fold_left writeField (laterWrites rest) a).
Proof.
  revert a. induction rest as [|m rest IH]; intros a; [reflexivity|].
  unfold laterWrites. simpl. rewrite fold_left_app. apply IH.
Qed.

(** A buffer that is not empty merges into a metric. *)
Lemma Aggregate_cons (m : t) (rest : list t) :
  Aggregate (m :: rest) = (Some (fold_left writeField (laterWrites rest) (Copy m)), None).
Proof. unfold Aggregate. simpl. now rewrite fold_mergeInto_Some. Qed.

Lemma Aggregate_is_Some (ms : list t) : ms <> [] -> is_Some (fst (Aggregate ms)).
Proof. destruct ms as [|m rest]; [easy|]. rewrite Aggregate_cons. eauto. Qed.

Lemma Aggregate_error (ms : list t) : snd (Aggregate ms) = None.
Proof. reflexivity. Qed.

Lemma existsb_concat {A} (p : A -> bool) (ls : list (list A)) :
  existsb p (concat ls) = existsb (existsb p) ls.
Proof.
  induction ls as [|l ls IH]; [reflexivity|].
  simpl. now rewrite existsb_app, IH.
Qed.

End Metric_facts.

(** C3 — Merge semantics.  A buffer that is not empty, [m :: rest], merges
    into exactly one metric, with no error.  Name, tags and timestamp of
    the aggregate are those of [m], the first metric, whatever tags the
    later metrics carry.  Its fields are the union of the fields of all
    buffered metrics, written in buffer order, the last writer winning:
    under each key the aggregate holds the last value a later metric
    wrote, or else the value [m] holds. *)
Theorem Aggregate_merge (m : Metric) (rest : list Metric) :
  exists agg : Metric,
    Aggregate (m :: rest) = (Some agg, None) /\
    Metric.Name agg = Metric.Name m /\
    Metric.TagList agg = Metric.TagList m /\
    Metric.Time agg = Metric.Time m /\
    (forall key, Metric.GetField agg key
                 = match lastWrite key (laterWrites rest) with
                   | Some v => Some v
                   | None => Metric.GetField m key
                   end) /\
    (forall key, Metric.HasField agg key
                 = existsb (fun b => Metric.HasField b key) (m :: rest)).
Proof.
  eexists. split; [apply Metric_facts.Aggregate_cons|].
  destruct (Metric_facts.writes_spec (laterWrites rest) (Metric.Copy m))
    as (Hn & Htg & Htm & Hget).
  repeat split; try assumption.
  intros key. rewrite Metric_facts.HasField_GetField, Hget. simpl.
  rewrite (Metric_facts.HasField_GetField m key).
  change (Metric.GetField (Metric.Copy m) key) with (Metric.GetField m key).
  assert (Hl : bool_decide (is_Some (lastWrite key (laterWrites rest)))
               = existsb (fun b => Metric.HasField b key) rest).
  { rewrite Metric_facts.lastWrite_is_Some. unfold laterWrites.
    rewrite Metric_facts.existsb_concat. clear.
    induction rest as [|b rest IH]; [reflexivity|]. simpl. now rewrite IH. }
  rewrite <- Hl.
  destruct (lastWrite key (laterWrites rest)) as [v|] eqn:E; simpl.
  - now rewrite orb_true_r.
  - now rewrite orb_false_r.
Qed.

(* ===================================================================== *)
(** ** The engine, operation by operation                                 *)
(* ===================================================================== *)

Section EngineFacts.
Context `{FilterPkg}.
Implicit Types (t : CycleStats) (m : Metric) (c : gmap string (list Metric)).

(** *** Key computation *)

(** The cases of a key computation: patterns compiled or none, and else
    the two outcomes of the compiler. *)
Ltac compile_cases t :=
  destruct (filters t) eqn:?, (GroupBy t) eqn:?; try reflexivity; try discriminate;
  destruct (filter_Compile _) eqn:?; try reflexivity; try discriminate.

Lemma generateGroupByKey_recv t m : fst (generateGroupByKey t m) = warm t.
Proof.
  unfold generateGroupByKey, warm. compile_cases t.
Qed.

Lemma generateGroupByKey_ok t m :
  compilable t = true -> snd (generateGroupByKey t m) = (groupkeyOf m, None).
Proof.
  unfold generateGroupByKey, compilable. compile_cases t.
Qed.

Lemma generateGroupByKey_fail t m :
  compilable t = false ->
  exists e, generateGroupByKey t m = (t, (EmptyString, Some e)).
Proof.
  unfold generateGroupByKey, compilable.
  destruct (filters t), (GroupBy t); try discriminate.
  destruct (filter_Compile _); [discriminate|]. eauto.
Qed.

Lemma warm_cache t : cache (warm t) = cache t.
Proof.
  unfold warm. compile_cases t.
Qed.

Lemma warm_Fields t : Fields (warm t) = Fields t.
Proof.
  unfold warm. compile_cases t.
Qed.

Lemma warm_compilable t : compilable (warm t) = compilable t.
Proof.
  unfold warm, compilable.
  destruct (filters t) eqn:Ef, (GroupBy t) eqn:Eg; try now rewrite ?Ef, ?Eg.
  destruct (filter_Compile _) eqn:Ec; simpl; [reflexivity|].
  now rewrite Ef, Eg, Ec.
Qed.

Lemma warm_fail t : compilable t = false -> warm t = t.
Proof.
  unfold warm, compilable. compile_cases t.
Qed.

(** *** [groupBy] is [put] on the cache *)

Lemma groupBy_cache t m :
  compilable t = true -> cache (groupBy t m) = put (cache t) m.
Proof.
  intros Hc. unfold groupBy.
  pose proof (generateGroupByKey_recv t m) as Hr.
  pose proof (generateGroupByKey_ok t m Hc) as Hk.
  destruct (generateGroupByKey t m) as [t' [k e]]. simpl in Hr, Hk.
  injection Hk as -> ->. subst t'. simpl. rewrite warm_cache. unfold put.
  destruct (cache t !! groupkeyOf m) as [ms|] eqn:E; [reflexivity|].
  rewrite lookup_total_insert_eq, insert_insert_eq.
  now rewrite lookup_total_alt, E.
Qed.

Lemma groupBy_cache_fail t m : compilable t = false -> cache (groupBy t m) = cache t.
Proof.
  intros Hc. unfold groupBy.
  destruct (generateGroupByKey_fail t m Hc) as [e ->]. reflexivity.
Qed.

Lemma groupBy_Fields t m : Fields (groupBy t m) = Fields t.
Proof.
  unfold groupBy.
  pose proof (generateGroupByKey_recv t m) as Hr.
  destruct (generateGroupByKey t m) as [t' [k [e|]]]; simpl in *; subst t';
    apply warm_Fields.
Qed.

Lemma groupBy_compilable t m : compilable (groupBy t m) = compilable t.
Proof.
  unfold groupBy.
  pose proof (generateGroupByKey_recv t m) as Hr.
  destruct (generateGroupByKey t m) as [t' [k [e|]]]; simpl in *; subst t';
    rewrite <- (warm_compilable t); reflexivity.
Qed.

(** *** One iteration of [Apply] *)

Lemma accepts_Fields t1 t2 m : Fields t1 = Fields t2 -> accepts t1 m = accepts t2 m.
Proof. unfold accepts. now intros ->. Qed.

Lemma Apply_body_unfold (st : loopState) m :
  Apply_body st m
  = {| recv := if accepts (recv st) m then groupBy (warm (recv st)) m else warm (recv st);
       groupkey := fst (snd (generateGroupByKey (recv st) m));
       measurment := Metric.Name m |}.
Proof.
  unfold Apply_body.
  pose proof (generateGroupByKey_recv (recv st) m) as Hr.
  destruct (generateGroupByKey (recv st) m) as [t' [k e]]. simpl in *. subst t'.
  now rewrite (accepts_Fields (recv st) (warm (recv st))) by (symmetry; apply warm_Fields).
Qed.

Lemma Apply_body_Fields (st : loopState) m :
  Fields (recv (Apply_body st m)) = Fields (recv st).
Proof.
  rewrite Apply_body_unfold. simpl.
  destruct (accepts _ _); now rewrite ?groupBy_Fields, warm_Fields.
Qed.

Lemma Apply_body_compilable (st : loopState) m :
  compilable (recv (Apply_body st m)) = compilable (recv st).
Proof.
  rewrite Apply_body_unfold. simpl.
  destruct (accepts _ _); now rewrite ?groupBy_compilable, warm_compilable.
Qed.

Lemma Apply_body_cache (st : loopState) m :
  compilable (recv st) = true ->
  cache (recv (Apply_body st m))
  = if accepts (recv st) m then put (cache (recv st)) m else cache (recv st).
Proof.
  intros Hc. rewrite Apply_body_unfold. simpl.
  destruct (accepts _ _); [|apply warm_cache].
  rewrite groupBy_cache by now rewrite warm_compilable.
  now rewrite warm_cache.
Qed.

Lemma Apply_body_cache_fail (st : loopState) m :
  compilable (recv st) = false -> cache (recv (Apply_body st m)) = cache (recv st).
Proof.
  intros Hc. rewrite Apply_body_unfold. simpl.
  destruct (accepts _ _); [|apply warm_cache].
  rewrite groupBy_cache_fail by now rewrite warm_compilable.
  apply warm_cache.
Qed.

Lemma Apply_body_groupkey (st : loopState) m :
  groupkey (Apply_body st m)
  = if compilable (recv st) then groupkeyOf m else EmptyString.
Proof.
  rewrite Apply_body_unfold. simpl.
  destruct (compilable (recv st)) eqn:Hc.
  - now rewrite generateGroupByKey_ok.
  - now destruct (generateGroupByKey_fail (recv st) m Hc) as [e ->].
Qed.

(** *** The loop of [Apply] *)

Lemma List_last_default {A} (l : list A) (d1 d2 : A) :
  l <> [] -> List.last l d1 = List.last l d2.
Proof.
  induction l as [|x l IH]; [easy|]. intros _.
  destruct l as [|y l]; [reflexivity|].
  change (List.last (y :: l) d1 = List.last (y :: l) d2). now apply IH.
Qed.

Lemma List_last_cons {A} (x : A) (l : list A) (d : A) :
  List.last (x :: l) d = List.last l x.
Proof.
  destruct l as [|y l]; [reflexivity|].
  change (List.last (y :: l) d = List.last (y :: l) x). now apply List_last_default.
Qed.

Lemma loop_Fields (b : list Metric) (st : loopState) :
  Fields (recv (fold_left Apply_body b st)) = Fields (recv st).
Proof.
  revert st. induction b as [|m b IH]; intros st; [reflexivity|].
  simpl. now rewrite IH, Apply_body_Fields.
Qed.

Lemma loop_compilable (b : list Metric) (st : loopState) :
  compilable (recv (fold_left Apply_body b st)) = compilable (recv st).
Proof.
  revert st. induction b as [|m b IH]; intros st; [reflexivity|].
  simpl. now rewrite IH, Apply_body_compilable.
Qed.

Lemma loop_measurment (b : list Metric) (st : loopState) :
  measurment (fold_left Apply_body b st)
  = List.last (List.map Metric.Name b) (measurment st).
Proof.
  revert st. induction b as [|m b IH]; intros st; [reflexivity|].
  simpl fold_left. rewrite IH, Apply_body_unfold. simpl measurment.
  change (List.map Metric.Name (m :: b)) with (Metric.Name m :: List.map Metric.Name b).
  now rewrite List_last_cons.
Qed.

Lemma loop_groupkey (b : list Metric) (st : loopState) :
  compilable (recv st) = true ->
  groupkey (fold_left Apply_body b st)
  = List.last (List.map groupkeyOf b) (groupkey st).
Proof.
  revert st. induction b as [|m b IH]; intros st Hc; [reflexivity|].
  simpl fold_left. rewrite IH by now rewrite Apply_body_compilable.
  rewrite Apply_body_groupkey, Hc.
  change (List.map groupkeyOf (m :: b)) with (groupkeyOf m :: List.map groupkeyOf b).
  now rewrite List_last_cons.
Qed.

Lemma loop_groupkey_fail (b : list Metric) (st : loopState) :
  compilable (recv st) = false -> b <> [] ->
  groupkey (fold_left Apply_body b st) = EmptyString.
Proof.
  revert st. induction b as [|m b IH]; intros st Hc Hb; [easy|].
  simpl fold_left. destruct b as [|m' b].
  - simpl. now rewrite Apply_body_groupkey, Hc.
  - apply IH; [now rewrite Apply_body_compilable|easy].
Qed.

Lemma loop_cache (b : list Metric) (st : loopState) :
  compilable (recv st) = true ->
  cache (recv (fold_left Apply_body b st))
  = fold_left put (List.filter (accepts (recv st)) b) (cache (recv st)).
Proof.
  revert st. induction b as [|m b IH]; intros st Hc; [reflexivity|].
  simpl fold_left. rewrite IH by now rewrite Apply_body_compilable.
  rewrite Apply_body_cache by assumption.
  erewrite filter_ext with (g := accepts (recv st))
    by (intros; apply accepts_Fields, Apply_body_Fields).
  simpl. destruct (accepts (recv st) m); reflexivity.
Qed.

Lemma loop_cache_fail (b : list Metric) (st : loopState) :
  compilable (recv st) = false ->
  cache (recv (fold_left Apply_body b st)) = cache (recv st).
Proof.
  revert st. induction b as [|m b IH]; intros st Hc; [reflexivity|].
  simpl fold_left. rewrite IH by now rewrite Apply_body_compilable.
  now apply Apply_body_cache_fail.
Qed.

Lemma Apply_loop_Fields t b : Fields (recv (Apply_loop t b)) = Fields t.
Proof. unfold Apply_loop. now rewrite loop_Fields. Qed.

Lemma Apply_loop_measurment t b : measurment (Apply_loop t b) = lastName b.
Proof. unfold Apply_loop. now rewrite loop_measurment. Qed.

Lemma Apply_loop_cache t b :
  compilable t = true ->
  cache (recv (Apply_loop t b)) = fold_left put (List.filter (accepts t) b) (cache t).
Proof. intros Hc. unfold Apply_loop. now rewrite loop_cache. Qed.

Lemma Apply_loop_groupkey t b :
  compilable t = true ->
  groupkey (Apply_loop t b) = List.last (List.map groupkeyOf b) EmptyString.
Proof. intros Hc. unfold Apply_loop. now rewrite loop_groupkey. Qed.

(** *** [Reset] and [push] *)

Lemma Reset_cache t : cache (Reset t) = ∅.
Proof. reflexivity. Qed.

Lemma fold_append {K A B} (f : A -> B) (l : list (K * A)) (acc : list B) :
  fold_left (fun aggs '(_, ms) => aggs ++ [f ms]) l acc
  = acc ++ ((fun kv : K * A => f (snd kv)) <$> l).
Proof.
  revert acc. induction l as [|[k ms] l IH]; intros acc; simpl.
  - now rewrite app_nil_r.
  - rewrite IH. now rewrite <- app_assoc.
Qed.

Lemma push_aggregates t : fst (push t) = aggregates (cache t).
Proof.
  unfold push, aggregates. simpl.
  now rewrite (fold_append (fun ms => fst (Aggregate ms))).
Qed.

Lemma push_cache t : cache (snd (push t)) = ∅.
Proof. reflexivity. Qed.

Lemma aggregates_elem c (k : string) (ms : list Metric) :
  c !! k = Some ms -> fst (Aggregate ms) ∈ aggregates c.
Proof.
  intros Hk. unfold aggregates. apply list_elem_of_fmap.
  exists (k, ms). split; [reflexivity|]. now apply elem_of_map_to_list.
Qed.

Lemma aggregates_inv c (a : option Metric) :
  a ∈ aggregates c -> exists k ms, c !! k = Some ms /\ a = fst (Aggregate ms).
Proof.
  unfold aggregates. intros [[k ms] [-> Hin]]%list_elem_of_fmap.
  exists k, ms. split; [now apply elem_of_map_to_list|reflexivity].
Qed.

Lemma aggregates_length c : length (aggregates c) = size c.
Proof. unfold aggregates. now rewrite length_fmap, length_map_to_list. Qed.

Lemma aggregates_empty : aggregates ∅ = [].
Proof. unfold aggregates. now rewrite map_to_list_empty. Qed.

End EngineFacts.

(* ===================================================================== *)
(** ** Properties of the engine                                           *)
(* ===================================================================== *)

Section EngineClaims.
Context `{FilterPkg}.
Implicit Types (t : CycleStats) (m : Metric) (c : gmap string (list Metric)).

(** C10 — Reset idempotence.  A reset leaves the cache empty, and so does a
    second reset right after it, which changes nothing any more; a flush
    right after a reset, with nothing put in between, returns the empty
    batch of aggregates (and leaves the cache empty). *)
Theorem Reset_idempotent t :
  cache (Reset t) = ∅ /\
  cache (Reset (Reset t)) = ∅ /\
  Reset (Reset t) = Reset t /\
  fst (push (Reset t)) = [] /\
  cache (snd (push (Reset t))) = ∅.
Proof.
  split; [apply Reset_cache|]. split; [apply Reset_cache|].
  split; [reflexivity|]. split; [|apply push_cache].
  rewrite push_aggregates, Reset_cache. apply aggregates_empty.
Qed.

(** C2 — Global flush.  Whenever the completeness test fires at the end of
    a call, every group then in the cache, whatever its key, is merged and
    its aggregate is in the batch the call returns; the batch holds one
    aggregate per group and nothing else, and the cache is empty
    afterwards: no metric outlives a flush. *)
Theorem global_flush t (batch : list Metric) :
  complete (Apply_loop t batch) = true ->
  let groups := cache (recv (Apply_loop t batch)) in
  let out := fst (Apply t batch) in
  (forall (k : string) (ms : list Metric),
      groups !! k = Some ms -> fst (Aggregate ms) ∈ out) /\
  out ≡ₚ aggregates groups /\
  length out = size groups /\
  cache (snd (Apply t batch)) = ∅.
Proof.
  intros Hc groups out. subst out. unfold Apply. rewrite Hc.
  rewrite push_aggregates. fold groups.
  split; [|split; [|split]].
  - intros k ms Hk. now apply aggregates_elem with k.
  - reflexivity.
  - apply aggregates_length.
  - reflexivity.
Qed.

(** C6 — A batch that ends in an unlisted measurement flushes.  When the
    name the completeness test looks up (the name of the last metric of the
    batch, the empty name for an empty batch) has no entry in the
    required-field table, the required count is zero, the test succeeds
    whatever the cache holds, and the call flushes the whole cache: every
    buffered group is merged and returned and the cache is reset.  With
    the table of [New], which does not list the empty name, a call with
    an empty batch therefore always flushes. *)
Theorem unlisted_last_flushes t (batch : list Metric) :
  (Fields t !! lastName batch = None ->
   length (Fields t !!! lastName batch) = 0%nat /\
   complete (Apply_loop t batch) = true /\
   Apply t batch = push (recv (Apply_loop t batch)) /\
   fst (Apply t batch) = aggregates (cache (recv (Apply_loop t batch))) /\
   cache (snd (Apply t batch)) = ∅) /\
  (Fields t = defaultFields ->
   Apply t [] = push t /\ fst (Apply t []) = aggregates (cache t) /\
   cache (snd (Apply t [])) = ∅).
Proof.
  assert (Hgen : forall b, Fields t !! lastName b = None ->
            length (Fields t !!! lastName b) = 0%nat /\
            complete (Apply_loop t b) = true /\
            Apply t b = push (recv (Apply_loop t b)) /\
            fst (Apply t b) = aggregates (cache (recv (Apply_loop t b))) /\
            cache (snd (Apply t b)) = ∅).
  { intros b Hn.
    assert (Hz : length (Fields t !!! lastName b) = 0%nat)
      by now rewrite lookup_total_alt, Hn.
    assert (Hc : complete (Apply_loop t b) = true).
    { unfold complete. rewrite Apply_loop_Fields, Apply_loop_measurment, Hz.
      reflexivity. }
    unfold Apply. rewrite Hc, push_aggregates. repeat split; assumption. }
  split; [apply Hgen|].
  intros Hd. destruct (Hgen []) as (_ & _ & Ha & Hb & Hc).
  - rewrite Hd. reflexivity.
  - repeat split; assumption.
Qed.

(** *** The two ways out of [Apply] *)

Lemma Apply_flush t (b : list Metric) :
  complete (Apply_loop t b) = true ->
  Apply t b = (aggregates (cache (recv (Apply_loop t b))), Reset (recv (Apply_loop t b))).
Proof.
  intros Hc. unfold Apply. rewrite Hc.
  rewrite (surjective_pairing (push _)). now rewrite push_aggregates.
Qed.

Lemma Apply_no_flush t (b : list Metric) :
  complete (Apply_loop t b) = false -> Apply t b = ([], recv (Apply_loop t b)).
Proof. intros Hc. unfold Apply. now rewrite Hc. Qed.

Lemma Apply_calls_cons t (b : list Metric) (rest : list (list Metric)) :
  Apply_calls t (b :: rest)
  = ((complete (Apply_loop t b), fst (Apply t b))
       :: fst (Apply_calls (snd (Apply t b)) rest),
     snd (Apply_calls (snd (Apply t b)) rest)).
Proof.
  simpl. destruct (Apply t b) as [out t']. simpl.
  now destruct (Apply_calls t' rest).
Qed.

(** *** Calls that buffer under one key *)

Lemma fold_put_same_key (k : string) (ms : list Metric) c :
  Forall (fun m => groupkeyOf m = k) ms -> ms <> [] ->
  fold_left put ms c = <[k := (c !!! k) ++ ms]> c.
Proof.
  revert c. induction ms as [|m ms IH]; intros c Hk Hne; [easy|].
  apply Forall_cons in Hk as [Hm Hk]. simpl.
  destruct ms as [|m' ms].
  - simpl. unfold put. now rewrite Hm.
  - rewrite IH by easy. unfold put. rewrite Hm.
    rewrite lookup_total_insert_eq, insert_insert_eq.
    now rewrite <- app_assoc.
Qed.

Lemma List_filter_all {A} (f : A -> bool) (l : list A) :
  Forall (fun x => f x = true) l -> List.filter f l = l.
Proof.
  induction 1 as [|x l Hx _ IH]; [reflexivity|].
  simpl. now rewrite Hx, IH.
Qed.

Lemma last_map_const {A B} (f : A -> B) (v d : B) (l : list A) :
  l <> [] -> Forall (fun x => f x = v) l -> List.last (List.map f l) d = v.
Proof.
  revert d. induction l as [|x l IH]; [easy|]. intros d _ Hl.
  apply Forall_cons in Hl as [Hx Hl].
  change (List.map f (x :: l)) with (f x :: List.map f l). rewrite List_last_cons.
  destruct l as [|y l]; [exact Hx|]. now apply IH.
Qed.

Section OneKey.
Variables (n : string) (req : list string) (k : string).

Local Abbreviation report := (report n req k).

Lemma report_keys (l : list Metric) :
  Forall report l -> Forall (fun m => groupkeyOf m = k) l.
Proof. intros Hl. eapply Forall_impl; [exact Hl|]. intros m Hm; apply Hm. Qed.

Lemma report_names (l : list Metric) :
  Forall report l -> Forall (fun m => Metric.Name m = n) l.
Proof. intros Hl. eapply Forall_impl; [exact Hl|]. intros m Hm; apply Hm. Qed.

(** One call with reports only, after the reports [p] of earlier calls. *)
Lemma call_one_key t (p b : list Metric) :
  compilable t = true -> Fields t !! n = Some req ->
  cache t = fold_left put p ∅ ->
  Forall report p -> Forall report b -> b <> [] ->
  let st := Apply_loop t b in
  cache (recv st) = fold_left put (p ++ b) ∅ /\
  complete st = (length req <=? length p + length b)%nat /\
  compilable (recv st) = true /\
  Fields (recv st) = Fields t.
Proof.
  intros Hc Hn Hcache Hp Hb Hne st. subst st.
  assert (Hacc : Forall (fun m => accepts t m = true) b).
  { eapply Forall_impl; [exact Hb|]. intros m Hm. destruct Hm as (Hname & _ & Hf).
    unfold accepts. now rewrite Hname, lookup_total_alt, Hn. }
  assert (Hcache' : cache (recv (Apply_loop t b)) = fold_left put (p ++ b) ∅).
  { rewrite Apply_loop_cache, List_filter_all, Hcache by assumption.
    now rewrite fold_left_app. }
  split; [exact Hcache'|]. split; [|split].
  - unfold complete.
    rewrite Apply_loop_Fields, Apply_loop_measurment, Apply_loop_groupkey by assumption.
    unfold lastName.
    rewrite (last_map_const Metric.Name n), (last_map_const groupkeyOf k); try assumption.
    + rewrite Hcache', (fold_put_same_key k).
      * rewrite lookup_total_insert_eq, lookup_total_empty, lookup_total_alt, Hn.
        simpl. now rewrite length_app.
      * apply Forall_app. split; now apply report_keys.
      * destruct p; [simpl; exact Hne|easy].
    + now apply report_keys.
    + now apply report_names.
  - unfold Apply_loop. now rewrite loop_compilable.
  - apply Apply_loop_Fields.
Qed.

(** The calls that deliver the rest of the reports: none but the last
    flushes, and the last returns the one aggregate of them all. *)
Lemma calls_one_key (batches : list (list Metric)) t (p : list Metric) :
  compilable t = true -> Fields t !! n = Some req ->
  cache t = fold_left put p ∅ ->
  Forall report p -> Forall report (concat batches) ->
  Forall (fun b => b <> []) batches -> batches <> [] ->
  (length p + length (concat batches))%nat = length req ->
  exists t',
    Apply_calls t batches
    = (repeat (false, []) (length batches - 1)
         ++ [(true, [fst (Aggregate (p ++ concat batches))])], t') /\
    cache t' = ∅.
Proof.
  revert t p. induction batches as [|b batches IH];
    intros t p Hc Hn Hcache Hp Hall Hne Hnil Hlen; [easy|].
  simpl concat in *. apply Forall_app in Hall as [Hb Hrest].
  apply Forall_cons in Hne as [Hbne Hne].
  destruct (call_one_key t p b Hc Hn Hcache Hp Hb Hbne) as (Hcache' & Hcomp & Hc' & Hf').
  rewrite length_app in Hlen.
  rewrite Apply_calls_cons.
  destruct batches as [|b' batches].
  - simpl in Hlen |- *. rewrite app_nil_r in *.
    assert (Htrue : complete (Apply_loop t b) = true)
      by (rewrite Hcomp; apply Nat.leb_le; lia).
    rewrite Apply_flush, Htrue, Hcache' by exact Htrue. simpl.
    exists (Reset (recv (Apply_loop t b))). split; [|reflexivity].
    rewrite (fold_put_same_key k).
    + unfold aggregates. rewrite insert_empty, map_to_list_singleton. simpl.
      now rewrite lookup_total_empty.
    + apply Forall_app. split; now apply report_keys.
    + destruct p; [simpl; exact Hbne|easy].
  - assert (Hpos : (0 < length (concat (b' :: batches)))%nat).
    { apply Forall_cons in Hne as [Hb' _]. simpl. rewrite length_app.
      destruct b'; [easy|simpl; lia]. }
    assert (Hfalse : complete (Apply_loop t b) = false)
      by (rewrite Hcomp; apply Nat.leb_gt; lia).
    rewrite Apply_no_flush, Hfalse by exact Hfalse. cbn [fst snd].
    destruct (IH (recv (Apply_loop t b)) (p ++ b)) as (t' & Hcalls & Hempty);
      try assumption; try easy.
    + now rewrite Hf'.
    + apply Forall_app. now split.
    + rewrite length_app. lia.
    + rewrite Hcalls. exists t'. split; [|exact Hempty].
      rewrite <- app_assoc. simpl. now rewrite Nat.sub_0_r.
Qed.

End OneKey.

(** *** The loop buffers by [groupBy] *)

Lemma fold_groupBy_cache (l : list Metric) t :
  cache (fold_left groupBy l t)
  = if compilable t then fold_left put l (cache t) else cache t.
Proof.
  revert t. induction l as [|m l IH]; intros t; simpl.
  - now destruct (compilable t).
  - rewrite IH, groupBy_compilable. destruct (compilable t) eqn:Hc.
    + now rewrite groupBy_cache.
    + now rewrite groupBy_cache_fail.
Qed.

(** The cache after the loop of [Apply] is the cache after [groupBy] on
    the metrics of the batch that pass the field test, in their order. *)
Lemma Apply_loop_groupBy t (b : list Metric) :
  cache (recv (Apply_loop t b)) = cache (fold_left groupBy (List.filter (accepts t) b) t).
Proof.
  rewrite fold_groupBy_cache. destruct (compilable t) eqn:Hc.
  - now apply Apply_loop_cache.
  - unfold Apply_loop. now rewrite loop_cache_fail.
Qed.

(** *** The shape of the cache *)

Lemma shape_empty : shape ∅ [].
Proof. intros k. apply lookup_empty. Qed.

Lemma shape_lookup_total c (log : list Metric) (k : string) :
  shape c log -> c !!! k = bufferOf k log.
Proof.
  intros Hs. rewrite lookup_total_alt, (Hs k).
  now destruct (bufferOf k log).
Qed.

Lemma shape_put c (log : list Metric) m :
  shape c log -> shape (put c m) (log ++ [m]).
Proof.
  intros Hs k. unfold put, bufferOf. rewrite List.filter_app. simpl.
  destruct (String.eqb_spec (groupkeyOf m) k) as [->|Hne].
  - rewrite lookup_insert_eq, (shape_lookup_total c log) by assumption.
    unfold bufferOf. now destruct (List.filter _ log).
  - rewrite lookup_insert_ne, app_nil_r by assumption. apply Hs.
Qed.

Lemma shape_puts (ms : list Metric) c (log : list Metric) :
  shape c log -> shape (fold_left put ms c) (log ++ ms).
Proof.
  revert c log. induction ms as [|m ms IH]; intros c log Hs; simpl.
  - now rewrite app_nil_r.
  - replace (log ++ m :: ms) with ((log ++ [m]) ++ ms) by now rewrite <- app_assoc.
    now apply IH, shape_put.
Qed.

Lemma shape_nonempty c (log : list Metric) (k : string) (ms : list Metric) :
  shape c log -> c !! k = Some ms -> ms = bufferOf k log /\ ms <> [].
Proof.
  intros Hs Hk. rewrite (Hs k) in Hk.
  destruct (bufferOf k log); [discriminate|]. injection Hk as <-. easy.
Qed.

Lemma shape_present c (log : list Metric) (k : string) :
  shape c log -> is_Some (c !! k) <-> exists m, m ∈ log /\ groupkeyOf m = k.
Proof.
  intros Hs. rewrite (Hs k). split.
  - intros [ms Hms]. destruct (bufferOf k log) as [|m l] eqn:E; [discriminate|].
    assert (Hin : In m (bufferOf k log)) by (rewrite E; now left).
    apply filter_In in Hin as [Hin Hk]. exists m. split.
    + now apply list_elem_of_In.
    + now apply String.eqb_eq.
  - intros (m & Hin & Hk).
    assert (Hin' : In m (bufferOf k log)).
    { apply filter_In. split; [now apply list_elem_of_In|now apply String.eqb_eq]. }
    destruct (bufferOf k log); [easy|eauto].
Qed.

Lemma shape_aggregates c (log : list Metric) (a : option Metric) :
  shape c log -> a ∈ aggregates c -> is_Some a.
Proof.
  intros Hs (k & ms & Hk & ->)%aggregates_inv.
  apply Metric_facts.Aggregate_is_Some. now apply (shape_nonempty c log k).
Qed.

Lemma shape_Apply_loop t (b : list Metric) (log : list Metric) :
  shape (cache t) log ->
  shape (cache (recv (Apply_loop t b)))
        (if compilable t then log ++ List.filter (accepts t) b else log).
Proof.
  intros Hs. destruct (compilable t) eqn:Hc.
  - rewrite Apply_loop_cache by assumption. now apply shape_puts.
  - unfold Apply_loop. now rewrite loop_cache_fail.
Qed.

Lemma shape_exec t (op : Op) (log : list Metric) :
  shape (cache t) log -> shape (cache (exec t op)) (sinceFlush t op log).
Proof.
  intros Hs. destruct op as [b|m| |]; simpl.
  - destruct (complete (Apply_loop t b)) eqn:Hc.
    + rewrite Apply_flush by assumption. apply shape_empty.
    + rewrite Apply_no_flush by assumption. now apply shape_Apply_loop.
  - destruct (compilable t) eqn:Hc.
    + rewrite groupBy_cache by assumption. now apply shape_put.
    + now rewrite groupBy_cache_fail.
  - apply shape_empty.
  - apply shape_empty.
Qed.

Lemma shape_run (ops : list Op) t (log : list Metric) :
  shape (cache t) log ->
  shape (cache (fst (run t log ops))) (snd (run t log ops)).
Proof.
  revert t log. induction ops as [|op ops IH]; intros t log Hs; [exact Hs|].
  simpl. now apply IH, shape_exec.
Qed.

(** C7 — Cache shape invariant.  Start from an empty cache and run any
    sequence of engine operations ([Apply] on a batch, a put, a flush of
    all groups, a reset).  Afterwards a key is in the cache if and only if
    a metric has been buffered under it since the last flush, and its
    buffer holds exactly those metrics; so every cached buffer is
    non-empty, and whenever the groups are flushed, by [push] or by a
    further [Apply], every one of them merges into an aggregate metric;
    the merge never returns an error. *)
Theorem cache_shape t0 (ops : list Op) :
  cache t0 = ∅ ->
  let t := fst (run t0 [] ops) in
  let log := snd (run t0 [] ops) in
  (forall k : string,
      is_Some (cache t !! k) <-> exists m, m ∈ log /\ groupkeyOf m = k) /\
  (forall (k : string) (ms : list Metric),
      cache t !! k = Some ms -> ms = bufferOf k log /\ ms <> []) /\
  (forall a : option Metric, a ∈ fst (push t) -> is_Some a) /\
  (forall (batch : list Metric) (a : option Metric),
      a ∈ fst (Apply t batch) -> is_Some a) /\
  (forall ms : list Metric, snd (Aggregate ms) = None).
Proof.
  intros H0 t log.
  assert (Hs : shape (cache t) log).
  { apply shape_run. rewrite H0. apply shape_empty. }
  split; [|split; [|split; [|split]]].
  - intros k. now apply shape_present.
  - intros k ms. now apply shape_nonempty.
  - intros a. rewrite push_aggregates. now apply (shape_aggregates _ log).
  - intros batch a. destruct (complete (Apply_loop t batch)) eqn:Hc.
    + rewrite Apply_flush by assumption. simpl.
      apply (shape_aggregates _ _ a (shape_Apply_loop t batch log Hs)).
    + rewrite Apply_no_flush by assumption. simpl. now intros ?%elem_of_nil.
  - reflexivity.
Qed.
(** *** Metrics of unlisted measurements stay out of the cache *)

Lemma accepts_listed t m : accepts t m = true -> is_Some (Fields t !! Metric.Name m).
Proof.
  unfold accepts. rewrite lookup_total_alt.
  destruct (Fields t !! Metric.Name m); [eauto|discriminate].
Qed.

Lemma put_all (P : Metric -> Prop) c m0 :
  (forall (k : string) (ms : list Metric) m, c !! k = Some ms -> m ∈ ms -> P m) ->
  P m0 ->
  forall (k : string) (ms : list Metric) m, put c m0 !! k = Some ms -> m ∈ ms -> P m.
Proof.
  intros Hc H0 k ms m. unfold put.
  destruct (decide (k = groupkeyOf m0)) as [Hk|Hne].
  - subst k. rewrite lookup_insert_eq. intros [= <-] Hin.
    apply elem_of_app in Hin as [Hin|Hin].
    + rewrite lookup_total_alt in Hin.
      destruct (c !! groupkeyOf m0) as [l|] eqn:E.
      * exact (Hc _ l m E Hin).
      * now apply elem_of_nil in Hin.
    + apply list_elem_of_singleton in Hin. now subst m.
  - rewrite lookup_insert_ne by congruence. apply Hc.
Qed.

Lemma puts_all (P : Metric -> Prop) (l : list Metric) c :
  (forall (k : string) (ms : list Metric) m, c !! k = Some ms -> m ∈ ms -> P m) ->
  Forall P l ->
  forall (k : string) (ms : list Metric) m,
    fold_left put l c !! k = Some ms -> m ∈ ms -> P m.
Proof.
  revert c. induction l as [|m0 l IH]; intros c Hc Hl; [exact Hc|].
  apply Forall_cons in Hl as [H0 Hl]. simpl.
  apply IH; [|exact Hl]. now apply put_all.
Qed.

(** What the loop leaves in the cache was there before or is a metric of
    the batch that passed the field test. *)
Lemma Apply_loop_all (P : Metric -> Prop) t (b : list Metric) :
  (forall (k : string) (ms : list Metric) m, cache t !! k = Some ms -> m ∈ ms -> P m) ->
  (forall m, accepts t m = true -> P m) ->
  forall (k : string) (ms : list Metric) m,
    cache (recv (Apply_loop t b)) !! k = Some ms -> m ∈ ms -> P m.
Proof.
  intros Hc Hacc. destruct (compilable t) eqn:E.
  - rewrite Apply_loop_cache by assumption. apply puts_all; [exact Hc|].
    apply List.Forall_forall. intros m [_ Hm]%filter_In. now apply Hacc.
  - unfold Apply_loop. now rewrite loop_cache_fail.
Qed.

(** The name of an aggregate is the name of a metric of its group. *)
Lemma aggregates_name c (a : Metric) :
  Some a ∈ aggregates c ->
  exists (k : string) (ms : list Metric) m,
    c !! k = Some ms /\ m ∈ ms /\ Metric.Name a = Metric.Name m.
Proof.
  intros (k & ms & Hk & Ha)%aggregates_inv.
  destruct ms as [|m rest]; [discriminate|].
  rewrite Metric_facts.Aggregate_cons in Ha. injection Ha as ->.
  destruct (Metric_facts.writes_spec (laterWrites rest) (Metric.Copy m)) as (Hname & _).
  exists k, (m :: rest), m. repeat split; [exact Hk|apply list_elem_of_here|exact Hname].
Qed.

(** A metric whose measurement the table does not list is skipped by the
    loop, wherever it stands in the batch. *)
Lemma unlisted_skipped t m (b1 b2 : list Metric) :
  Fields t !! Metric.Name m = None ->
  cache (recv (Apply_loop t (b1 ++ m :: b2))) = cache (recv (Apply_loop t (b1 ++ b2))).
Proof.
  intros Hn.
  assert (Hacc : accepts t m = false).
  { destruct (accepts t m) eqn:E; [|reflexivity].
    apply accepts_listed in E as [? E]. congruence. }
  destruct (compilable t) eqn:Hc.
  - rewrite !Apply_loop_cache by assumption.
    rewrite !List.filter_app. simpl. now rewrite Hacc.
  - unfold Apply_loop. now rewrite !loop_cache_fail.
Qed.

Lemma unlisted_body (st : loopState) m :
  Fields (recv st) !! Metric.Name m = None ->
  cache (recv (Apply_body st m)) = cache (recv st).
Proof.
  intros Hn. rewrite Apply_body_unfold. simpl.
  destruct (accepts (recv st) m) eqn:E; [|apply warm_cache].
  apply accepts_listed in E as [? E]. congruence.
Qed.

(** A call with one metric of an unlisted measurement: the metric is not
    buffered, and the call flushes the cache as it was. *)
Lemma unlisted_single t m :
  Fields t !! Metric.Name m = None ->
  cache (recv (Apply_loop t [m])) = cache t /\
  fst (Apply t [m]) = aggregates (cache t) /\
  cache (snd (Apply t [m])) = ∅.
Proof.
  intros Hn.
  assert (Hcache : cache (recv (Apply_loop t [m])) = cache t)
    by (unfold Apply_loop; simpl; now apply unlisted_body).
  assert (Hc : complete (Apply_loop t [m]) = true).
  { unfold complete. rewrite Apply_loop_Fields, Apply_loop_measurment.
    unfold lastName. simpl. now rewrite lookup_total_alt, Hn. }
  rewrite Apply_flush by assumption. simpl. now rewrite Hcache.
Qed.

(** No metric of an unlisted measurement [n0] gets into the cache or into
    a returned batch, if none is in the cache to begin with. *)
Lemma unlisted_never_buffered t (n0 : string) (batch : list Metric) :
  Fields t !! n0 = None ->
  (forall (k : string) (ms : list Metric) m,
      cache t !! k = Some ms -> m ∈ ms -> Metric.Name m <> n0) ->
  (forall a : Metric, Some a ∈ fst (Apply t batch) -> Metric.Name a <> n0) /\
  (forall (k : string) (ms : list Metric) m,
      cache (snd (Apply t batch)) !! k = Some ms -> m ∈ ms -> Metric.Name m <> n0).
Proof.
  intros Hn Hc.
  assert (Hloop : forall (k : string) (ms : list Metric) m,
             cache (recv (Apply_loop t batch)) !! k = Some ms -> m ∈ ms ->
             Metric.Name m <> n0).
  { apply Apply_loop_all; [exact Hc|].
    intros m [x Hx]%accepts_listed Hm. rewrite Hm in Hx. congruence. }
  destruct (complete (Apply_loop t batch)) eqn:E.
  - rewrite Apply_flush by assumption. simpl. split.
    + intros a (k & ms & m & Hk & Hin & Ha)%aggregates_name. rewrite Ha.
      now apply (Hloop k ms).
    + intros k ms m. now rewrite lookup_empty.
  - rewrite Apply_no_flush by assumption. simpl. split; [|exact Hloop].
    intros a Ha. now apply elem_of_nil in Ha.
Qed.

(** C4 — A metric named "state_change" gets no treatment of its own.  In
    an engine whose table has no entry for that name (the table of [New]
    has none), processing such a metric leaves every buffered group in
    place — it is no reset signal — wherever the metric stands in a
    batch; and the metric is itself never buffered and never emitted: from
    a cache that holds no such metric, no call returns one or leaves one
    in the cache. *)
Theorem state_change_no_reset t (sc : Metric) :
  Metric.Name sc = "state_change"%string ->
  Fields t !! "state_change"%string = None ->
  (forall st : loopState,
      Fields (recv st) = Fields t ->
      cache (recv (Apply_body st sc)) = cache (recv st)) /\
  (forall b1 b2 : list Metric,
      cache (recv (Apply_loop t (b1 ++ sc :: b2)))
      = cache (recv (Apply_loop t (b1 ++ b2)))) /\
  ((forall (k : string) (ms : list Metric) m,
       cache t !! k = Some ms -> m ∈ ms -> Metric.Name m <> "state_change"%string) ->
   forall batch : list Metric,
     (forall a : Metric,
         Some a ∈ fst (Apply t batch) -> Metric.Name a <> "state_change"%string) /\
     (forall (k : string) (ms : list Metric) m,
         cache (snd (Apply t batch)) !! k = Some ms -> m ∈ ms ->
         Metric.Name m <> "state_change"%string)).
Proof.
  intros Hname Hn. split; [|split].
  - intros st Hf. apply unlisted_body. now rewrite Hf, Hname.
  - intros b1 b2. apply unlisted_skipped. now rewrite Hname.
  - intros Hc batch. now apply unlisted_never_buffered.
Qed.

(** C9 — Initialization never fails; a pattern that does not compile
    shows at key computation.  [Init] returns the nil error for every
    engine, whatever its grouping patterns, and changes nothing but the
    log.  The patterns are compiled by the first key computation, which is
    a total function of engine and metric: it returns the key (the name,
    "&", and the printed truncated time) with the nil error when the
    patterns are compiled already, are none, or compile, and the empty key
    with an error when they do not compile.  That error path is reached
    from [Apply], which then buffers nothing. *)
Theorem Init_never_fails t :
  snd (Init t) = None /\
  cache (fst (Init t)) = cache t /\
  filters (fst (Init t)) = filters t /\
  GroupBy (fst (Init t)) = GroupBy t /\
  Fields (fst (Init t)) = Fields t /\
  (forall m,
      fst (generateGroupByKey t m) = warm t /\
      if compilable t then snd (generateGroupByKey t m) = (groupkeyOf m, None)
      else exists e : error, snd (generateGroupByKey t m) = (EmptyString, Some e)) /\
  (forall batch : list Metric,
      cache (recv (Apply_loop t batch))
      = if compilable t then fold_left put (List.filter (accepts t) batch) (cache t)
        else cache t).
Proof.
  repeat (split; [reflexivity|]). split.
  - intros m. split; [apply generateGroupByKey_recv|].
    destruct (compilable t) eqn:E.
    + now apply generateGroupByKey_ok.
    + destruct (generateGroupByKey_fail t m E) as [e ->]. eauto.
  - intros batch. destruct (compilable t) eqn:E.
    + now apply Apply_loop_cache.
    + unfold Apply_loop. now rewrite loop_cache_fail.
Qed.

(** C8 — Grouping-key characterization.  Of an engine whose key
    computation succeeds: two metrics with the same measurement name whose
    timestamps are in the same location (zone abbreviation and offset) and
    fall in the same Unix second get the same key, the sub-second parts
    being cut off; and two metrics with different measurement names get
    different keys, whatever their instants, provided neither name
    contains the separator "&" or neither time zone abbreviation does. *)
Theorem groupkey_characterization t1 t2 m1 m2 :
  compilable t1 = true ->
  compilable t2 = true ->
  let key1 := fst (snd (generateGroupByKey t1 m1)) in
  let key2 := fst (snd (generateGroupByKey t2 m2)) in
  (Metric.Name m1 = Metric.Name m2 ->
   gotime.loc (Metric.Time m1) = gotime.loc (Metric.Time m2) ->
   gotime.unixNano (Metric.Time m1) / gotime.Second
   = gotime.unixNano (Metric.Time m2) / gotime.Second ->
   key1 = key2) /\
  (Metric.Name m1 <> Metric.Name m2 ->
   (hasAmp (Metric.Name m1) = false /\ hasAmp (Metric.Name m2) = false) \/
   (hasAmp (gotime.zoneName (gotime.loc (Metric.Time m1))) = false /\
    hasAmp (gotime.zoneName (gotime.loc (Metric.Time m2))) = false) ->
   key1 <> key2).
Proof.
  intros H1 H2 key1 key2. subst key1 key2.
  rewrite !generateGroupByKey_ok by assumption. simpl. unfold groupkeyOf.
  split.
  - intros Hn Hl Hs.
    now rewrite Hn, (gotime_facts.Truncate_same_second _ _ Hl Hs).
  - intros Hne [[Ha Hb]|[Ha Hb]] Heq; apply Hne.
    + eapply split_first_amp; eassumption.
    + eapply split_last_amp; [| |exact Heq];
        apply gotime_facts.hasAmp_String;
        now rewrite gotime_facts.Truncate_second.
Qed.

End EngineClaims.

(* ===================================================================== *)
(** ** The properties at work on the sample data                          *)
(* ===================================================================== *)

(** The spec's scenario: with the table [{"steam": ["a"; "b"]}], the batch
    of [steam {a:1}] and [steam {b:2}] of one second gives one aggregate
    [steam {a:1, b:2}] and leaves the cache empty. *)
Example steam_scenario :
  let t := Sample.steam_engine in
  let batch := [Sample.metric "steam" [("a", 1)]%string (Sample.at_ 0);
                Sample.metric "steam" [("b", 2)]%string (Sample.at_ 0)] in
  fst (Apply t batch)
  = [Some (Sample.metric "steam" [("a", 1); ("b", 2)]%string (Sample.at_ 0))] /\
  cache (snd (Apply t batch)) = ∅.
Proof. vm_compute. split; reflexivity. Qed.

(** Last writer wins, and the tags are those of the first metric. *)
Example merge_last_writer_wins :
  let a := Sample.tagged "north" (Sample.metric "steam" [("x", 1)]%string (Sample.at_ 0)) in
  let b := Sample.tagged "south" (Sample.metric "steam" [("x", 2); ("y", 3)]%string (Sample.at_ 7)) in
  Aggregate [a; b]
  = (Some (Sample.tagged "north"
             (Sample.metric "steam" [("x", 2); ("y", 3)]%string (Sample.at_ 0))), None).
Proof. reflexivity. Qed.


(** Witness of C2: the fourth report of [sys_status_mngr] completes its
    group while a [steam_stats] group of one metric is waiting. *)
Lemma global_flush_witness :
  let batch := [Sample.heater; Sample.vacuum; Sample.water; Sample.compressor] in
  let groups := cache (recv (Apply_loop Sample.buffering batch)) in
  let out := fst (Apply Sample.buffering batch) in
  (forall (k : string) (ms : list Metric),
      groups !! k = Some ms -> fst (Aggregate ms) ∈ out) /\
  out ≡ₚ aggregates groups /\
  length out = size groups /\
  cache (snd (Apply Sample.buffering batch)) = ∅.
Proof.
  apply (global_flush Sample.buffering
           [Sample.heater; Sample.vacuum; Sample.water; Sample.compressor]).
  vm_compute. reflexivity.
Defined.

(** Both groups are in the batch that call returns. *)
Example global_flush_both_groups :
  fst (Apply Sample.buffering
         [Sample.heater; Sample.vacuum; Sample.water; Sample.compressor])
  ≡ₚ [Some Sample.steam_error;
      Some (Sample.metric "sys_status_mngr"
              [("heater", 0); ("vacuum", 0); ("water", 1); ("compressor", 1)]%string
              (Sample.at_ 100))].
Proof. vm_compute. apply perm_swap. Qed.

(** Counterexample to C4 as stated: with one [steam_stats] report buffered,
    a call with the control metric alone returns the aggregate of that
    group instead of nothing; and when a report follows the control metric
    in the batch, the group is not cleared but grows. *)
Lemma state_change_flushes :
  Metric.Name Sample.state_change = "state_change"%string /\
  cache Sample.buffering !! groupkeyOf Sample.steam_error = Some [Sample.steam_error] /\
  fst (Apply Sample.buffering [Sample.state_change]) = [Some Sample.steam_error] /\
  cache (snd (Apply Sample.buffering [Sample.state_change; Sample.steam_flows]))
    !! groupkeyOf Sample.steam_error
  = Some [Sample.steam_error; Sample.steam_flows].
Proof. vm_compute. repeat split; reflexivity. Qed.

(** Witness of C4. *)
Lemma state_change_no_reset_witness :
  cache (recv (Apply_loop Sample.buffering [Sample.state_change; Sample.steam_flows]))
  = cache (recv (Apply_loop Sample.buffering [Sample.steam_flows])) /\
  (forall a : Metric,
      Some a ∈ fst (Apply Sample.buffering [Sample.state_change]) ->
      Metric.Name a <> "state_change"%string).
Proof.
  destruct (state_change_no_reset Sample.buffering Sample.state_change) as (_ & Hb & Hc).
  - reflexivity.
  - vm_compute. reflexivity.
  - split; [exact (Hb [] [Sample.steam_flows])|].
    apply Hc. intros k ms m Hk Hin.
    change (cache Sample.buffering)
      with ({[ groupkeyOf Sample.steam_error := [Sample.steam_error] ]}
              : gmap string (list Metric)) in Hk.
    apply lookup_singleton_Some in Hk as [_ <-].
    apply list_elem_of_singleton in Hin. subst m. discriminate.
Defined.

(** C5 — at the failing input.  With one [steam_stats] report buffered, a
    call with a single metric of the unlisted measurement "cpu" does not
    return the empty batch and does not leave the cache as it was: it
    returns the aggregate of the buffered group and empties the cache. *)
Example unknown_measurement_flushes :
  Fields Sample.buffering !! Metric.Name Sample.cpu = None /\
  cache Sample.buffering !! groupkeyOf Sample.steam_error = Some [Sample.steam_error] /\
  fst (Apply Sample.buffering [Sample.cpu]) = [Some Sample.steam_error] /\
  cache (snd (Apply Sample.buffering [Sample.cpu])) = ∅.
Proof. vm_compute. repeat split; reflexivity. Qed.

(** Witness of C6. *)
Lemma unlisted_last_flushes_witness :
  Apply Sample.buffering [Sample.steam_flows; Sample.cpu]
  = push (recv (Apply_loop Sample.buffering [Sample.steam_flows; Sample.cpu])) /\
  Apply Sample.buffering [] = push Sample.buffering.
Proof.
  destruct (unlisted_last_flushes Sample.buffering [Sample.steam_flows; Sample.cpu])
    as [Ha _].
  destruct (unlisted_last_flushes Sample.buffering []) as [_ Hb].
  split.
  - apply Ha. vm_compute. reflexivity.
  - apply Hb. reflexivity.
Defined.

(** Witness of C7. *)
Lemma cache_shape_witness :
  let ops := [OpApply [Sample.steam_error]; OpPut Sample.heater;
              OpApply [Sample.cpu; Sample.steam_flows]; OpPut Sample.vacuum] in
  let t := fst (run Sample.engine [] ops) in
  let log := snd (run Sample.engine [] ops) in
  (forall k : string,
      is_Some (cache t !! k) <-> exists m, m ∈ log /\ groupkeyOf m = k) /\
  (forall (k : string) (ms : list Metric),
      cache t !! k = Some ms -> ms = bufferOf k log /\ ms <> []) /\
  (forall a : option Metric, a ∈ fst (push t) -> is_Some a) /\
  (forall (batch : list Metric) (a : option Metric),
      a ∈ fst (Apply t batch) -> is_Some a) /\
  (forall ms : list Metric, snd (Aggregate ms) = None).
Proof.
  apply (cache_shape Sample.engine
           [OpApply [Sample.steam_error]; OpPut Sample.heater;
            OpApply [Sample.cpu; Sample.steam_flows]; OpPut Sample.vacuum]).
  reflexivity.
Defined.

(** Counterexample to C8 as stated: two metrics with different names and
    one key. *)
Lemma groupkey_collision :
  Metric.Name Sample.exotic <> Metric.Name Sample.longname /\
  fst (snd (generateGroupByKey Sample.engine Sample.exotic))
  = fst (snd (generateGroupByKey Sample.engine Sample.longname)).
Proof. split; [discriminate|vm_compute; reflexivity]. Qed.

(** The first half of C8 needs the location: one measurement and one
    instant, carried once in UTC and once in Central European Time, get
    two keys, since the key prints the local time and the zone. *)
Example groupkey_zone_split :
  Metric.Name Sample.steam_error = Metric.Name Sample.steam_error_cet /\
  gotime.unixNano (Metric.Time Sample.steam_error)
  = gotime.unixNano (Metric.Time Sample.steam_error_cet) /\
  fst (snd (generateGroupByKey Sample.engine Sample.steam_error))
  = "steam_stats&2020-01-01 12:00:00 +0000 UTC"%string /\
  fst (snd (generateGroupByKey Sample.engine Sample.steam_error_cet))
  = "steam_stats&2020-01-01 13:00:00 +0100 CET"%string.
Proof. repeat split; vm_compute; reflexivity. Qed.

(** Witness of C8. *)
Lemma groupkey_characterization_witness :
  fst (snd (generateGroupByKey Sample.engine Sample.steam_error))
  = fst (snd (generateGroupByKey Sample.buffering Sample.steam_flows)) /\
  fst (snd (generateGroupByKey Sample.engine Sample.steam_error))
  <> fst (snd (generateGroupByKey Sample.buffering Sample.heater)).
Proof.
  split.
  - apply (groupkey_characterization Sample.engine Sample.buffering
             Sample.steam_error Sample.steam_flows); vm_compute; reflexivity.
  - apply (groupkey_characterization Sample.engine Sample.buffering
             Sample.steam_error Sample.heater); try (vm_compute; reflexivity).
    + discriminate.
    + left. split; reflexivity.
Defined.

(** Counterexample to C9 as stated: the pattern of the engine does not
    compile, [Init] returns the nil error all the same, and the key
    computation of [Apply] runs into the error. *)
Lemma Init_accepts_bad_pattern :
  @filter_Compile rejectingFilters (GroupBy Sample.misconfigured) = inr "unexpected end of input"%string /\
  snd (Init Sample.misconfigured) = None /\
  snd (generateGroupByKey Sample.misconfigured Sample.steam_error)
  = (EmptyString, Some "could not compile pattern: [[a-] unexpected end of input"%string) /\
  Log (snd (Apply Sample.misconfigured [Sample.steam_error]))
  = ["Could not generate group key: could not compile pattern: [[a-] unexpected end of input"%string].
Proof. vm_compute. repeat split; reflexivity. Qed.

(* ===================================================================== *)
(** ** More on the processor                                              *)
(* ===================================================================== *)

Section MoreEngine.
Context `{FilterPkg}.
Implicit Types (t : CycleStats) (m : Metric) (c : gmap string (list Metric)).

(** *** What no operation touches *)

Lemma warm_GroupBy t : GroupBy (warm t) = GroupBy t.
Proof.
  unfold warm. destruct (filters t); [reflexivity|].
  destruct (GroupBy t) as [|p ps] eqn:E; [now rewrite E|].
  destruct (filter_Compile (p :: ps)); simpl; now rewrite E.
Qed.

Lemma groupBy_GroupBy t m : GroupBy (groupBy t m) = GroupBy t.
Proof.
  unfold groupBy.
  pose proof (generateGroupByKey_recv t m) as Hr.
  destruct (generateGroupByKey t m) as [t' [k [e|]]]; simpl in *; subst t';
    apply warm_GroupBy.
Qed.

Lemma Apply_body_GroupBy (st : loopState) m :
  GroupBy (recv (Apply_body st m)) = GroupBy (recv st).
Proof.
  rewrite Apply_body_unfold. simpl.
  destruct (accepts _ _); now rewrite ?groupBy_GroupBy, warm_GroupBy.
Qed.

Lemma loop_GroupBy (b : list Metric) (st : loopState) :
  GroupBy (recv (fold_left Apply_body b st)) = GroupBy (recv st).
Proof.
  revert st. induction b as [|m b IH]; intros st; [reflexivity|].
  simpl. now rewrite IH, Apply_body_GroupBy.
Qed.

Lemma Apply_config t (b : list Metric) :
  Fields (snd (Apply t b)) = Fields t /\
  GroupBy (snd (Apply t b)) = GroupBy t /\
  compilable (snd (Apply t b)) = compilable t.
Proof.
  assert (Hf : Fields (recv (Apply_loop t b)) = Fields t) by apply Apply_loop_Fields.
  assert (Hg : GroupBy (recv (Apply_loop t b)) = GroupBy t)
    by (unfold Apply_loop; now rewrite loop_GroupBy).
  assert (Hc : compilable (recv (Apply_loop t b)) = compilable t)
    by (unfold Apply_loop; now rewrite loop_compilable).
  destruct (complete (Apply_loop t b)) eqn:E.
  - rewrite Apply_flush by assumption. simpl. repeat split; assumption.
  - rewrite Apply_no_flush by assumption. simpl. repeat split; assumption.
Qed.

Lemma exec_config t (op : Op) :
  Fields (exec t op) = Fields t /\
  GroupBy (exec t op) = GroupBy t /\
  compilable (exec t op) = compilable t.
Proof.
  destruct op as [b|m| |]; simpl.
  - apply Apply_config.
  - now rewrite groupBy_Fields, groupBy_GroupBy, groupBy_compilable.
  - repeat split.
  - repeat split.
Qed.

(** X1 — The configuration is read-only.  Whatever operations run on an
    engine ([Apply], a put, a flush, a reset, in any number and order), its
    required-field table and its grouping patterns stay what they were, and
    so does the outcome of key computation: an engine whose patterns
    compile keeps producing keys, one whose patterns do not compile never
    recovers. *)
Theorem configuration_read_only t (log : list Metric) (ops : list Op) :
  Fields (fst (run t log ops)) = Fields t /\
  GroupBy (fst (run t log ops)) = GroupBy t /\
  compilable (fst (run t log ops)) = compilable t.
Proof.
  revert t log. induction ops as [|op ops IH]; intros t log; [repeat split|].
  simpl. destruct (IH (exec t op) (sinceFlush t op log)) as (Hf & Hg & Hc).
  destruct (exec_config t op) as (Hf' & Hg' & Hc').
  repeat split; congruence.
Qed.

(** *** [Apply] as a function of table, cache and batch *)

Lemma Apply_pure t (batch : list Metric) :
  compilable t = true ->
  let c' := fold_left put (List.filter (accepts t) batch) (cache t) in
  let fire := (length (Fields t !!! lastName batch)
               <=? length (c' !!! List.last (List.map groupkeyOf batch) EmptyString))%nat in
  fst (Apply t batch) = (if fire then aggregates c' else []) /\
  cache (snd (Apply t batch)) = (if fire then ∅ else c').
Proof.
  intros Hc c' fire.
  assert (Hfire : complete (Apply_loop t batch) = fire).
  { unfold complete, fire, c'.
    now rewrite Apply_loop_Fields, Apply_loop_measurment, Apply_loop_groupkey,
      Apply_loop_cache by assumption. }
  destruct fire eqn:E.
  - rewrite Apply_flush by assumption. simpl.
    now rewrite Apply_loop_cache by assumption.
  - rewrite Apply_no_flush by assumption. simpl.
    now rewrite Apply_loop_cache by assumption.
Qed.

(** X2 — One decision per call, taken on the last metric.  On an engine
    whose key computation works, a call of [Apply] buffers, in batch
    order, exactly the metrics that carry a required field of their
    measurement, and then decides once: it flushes (returns one aggregate
    per group of the whole cache and empties it) if and only if the buffer
    under the key of the last metric of the batch, buffered or not, holds
    at least as many metrics as that metric's measurement has required
    fields; otherwise it returns the empty batch and keeps the buffers. *)
Theorem Apply_decides_on_last t (batch : list Metric) :
  compilable t = true ->
  let c' := fold_left put (List.filter (accepts t) batch) (cache t) in
  let fire := (length (Fields t !!! lastName batch)
               <=? length (c' !!! List.last (List.map groupkeyOf batch) EmptyString))%nat in
  complete (Apply_loop t batch) = fire /\
  fst (Apply t batch) = (if fire then aggregates c' else []) /\
  cache (snd (Apply t batch)) = (if fire then ∅ else c').
Proof.
  intros Hc c' fire. split; [|now apply Apply_pure].
  unfold complete, fire, c'.
  now rewrite Apply_loop_Fields, Apply_loop_measurment, Apply_loop_groupkey,
    Apply_loop_cache by assumption.
Qed.

(** X3 — The grouping patterns do not group.  Two engines with the same
    required-field table and the same cache, both with patterns that
    compile (or none), return the same batch and keep the same cache on
    every input, whatever their [group_by] patterns are: the compiled
    filter is never consulted. *)
Theorem GroupBy_is_never_consulted t1 t2 (batch : list Metric) :
  compilable t1 = true ->
  compilable t2 = true ->
  Fields t1 = Fields t2 ->
  cache t1 = cache t2 ->
  fst (Apply t1 batch) = fst (Apply t2 batch) /\
  cache (snd (Apply t1 batch)) = cache (snd (Apply t2 batch)).
Proof.
  intros H1 H2 Hf Hc.
  destruct (Apply_pure t1 batch H1) as [Ha Hb].
  destruct (Apply_pure t2 batch H2) as [Ha' Hb'].
  rewrite Ha, Ha', Hb, Hb', Hf, Hc.
  rewrite (filter_ext (accepts t1) (accepts t2))
    by (intros; now apply accepts_Fields).
  split; reflexivity.
Qed.

(** *** Patterns that do not compile *)

Lemma groupBy_fail t m :
  compilable t = false -> groupBy t m = log_line (keyErrorLine t) t.
Proof.
  unfold compilable, groupBy, generateGroupByKey, keyErrorLine.
  destruct (filters t); [discriminate|].
  destruct (GroupBy t) as [|p ps]; [discriminate|].
  destruct (filter_Compile (p :: ps)); [discriminate|reflexivity].
Qed.

Lemma loop_fail (b : list Metric) (st : loopState) :
  compilable (recv st) = false ->
  let t := recv st in
  let t' := recv (fold_left Apply_body b st) in
  cache t' = cache t /\
  Log t' = Log t ++ repeat (keyErrorLine t) (length (List.filter (accepts t) b)).
Proof.
  revert st. induction b as [|m b IH]; intros st Hc; simpl.
  - split; [reflexivity|now rewrite app_nil_r].
  - destruct (IH (Apply_body st m)) as [Hcache Hlog];
      [now rewrite Apply_body_compilable|].
    rewrite Hcache, Hlog. clear IH Hcache Hlog.
    rewrite (filter_ext (accepts (recv (Apply_body st m))) (accepts (recv st)))
      by (intros; apply accepts_Fields, Apply_body_Fields).
    rewrite Apply_body_unfold. simpl. rewrite (warm_fail _ Hc).
    destruct (accepts (recv st) m).
    + rewrite groupBy_fail by assumption. simpl.
      split; [reflexivity|]. now rewrite <- app_assoc.
    + split; reflexivity.
Qed.

(** X5 — Patterns that do not compile silence the engine.  On an engine
    whose grouping patterns do not compile (and whose cache is empty, as
    it then always is), every call of [Apply] returns the empty batch and
    leaves the cache empty, whatever the batch; each metric of the batch
    that carries a required field of its measurement leaves one error line
    in the log, the others leave none. *)
Theorem bad_patterns_drop_everything t (batch : list Metric) :
  compilable t = false ->
  cache t = ∅ ->
  fst (Apply t batch) = [] /\
  cache (snd (Apply t batch)) = ∅ /\
  Log (snd (Apply t batch))
  = Log t ++ repeat (keyErrorLine t) (length (List.filter (accepts t) batch)).
Proof.
  intros Hc Hcache.
  destruct (loop_fail batch {| recv := t; groupkey := EmptyString;
                               measurment := EmptyString |} Hc) as [Hc' Hlog].
  simpl in Hc', Hlog. fold (Apply_loop t batch) in Hc', Hlog.
  destruct (complete (Apply_loop t batch)) eqn:E.
  - rewrite Apply_flush by assumption. simpl.
    rewrite Hc', Hcache. split; [apply aggregates_empty|]. split; [reflexivity|exact Hlog].
  - rewrite Apply_no_flush by assumption. simpl.
    rewrite Hc', Hcache. split; [reflexivity|]. split; [reflexivity|exact Hlog].
Qed.

(** *** What a flush returns *)

Lemma HasField_writes (ws : list Metric.Field) (a : Metric) (key : string) :
  Metric.HasField (fold_left writeField ws a) key
  = Metric.HasField a key || existsb (fun f => String.eqb key (Metric.Key f)) ws.
Proof.
  destruct (Metric_facts.writes_spec ws a) as (_ & _ & _ & Hget).
  rewrite !Metric_facts.HasField_GetField, Hget, <- Metric_facts.lastWrite_is_Some.
  destruct (lastWrite key ws); simpl; [now rewrite orb_true_r|now rewrite orb_false_r].
Qed.

Lemma HasField_Aggregate (m0 : Metric) (rest : list Metric) (key : string) :
  Metric.HasField (fold_left writeField (laterWrites rest) (Metric.Copy m0)) key
  = existsb (fun b => Metric.HasField b key) (m0 :: rest).
Proof.
  rewrite HasField_writes. simpl. f_equal. unfold laterWrites.
  rewrite Metric_facts.existsb_concat.
  induction rest as [|b rest IH]; [reflexivity|]. simpl. now rewrite IH.
Qed.

(** The aggregate of a group passes the field test if its first metric
    does. *)
Lemma accepts_aggregate t (m0 : Metric) (rest : list Metric) :
  accepts t m0 = true ->
  accepts t (fold_left writeField (laterWrites rest) (Metric.Copy m0)) = true.
Proof.
  unfold accepts.
  destruct (Metric_facts.writes_spec (laterWrites rest) (Metric.Copy m0)) as (-> & _).
  simpl. intros (f & Hin & Hf)%existsb_exists.
  apply existsb_exists. exists f. split; [exact Hin|].
  rewrite HasField_Aggregate. simpl. now rewrite Hf.
Qed.

Lemma Apply_accepted t (batch : list Metric) :
  (forall (k : string) (ms : list Metric) m,
      cache t !! k = Some ms -> m ∈ ms -> accepts t m = true) ->
  (forall a : Metric, Some a ∈ fst (Apply t batch) -> accepts t a = true) /\
  (forall (k : string) (ms : list Metric) m,
      cache (snd (Apply t batch)) !! k = Some ms -> m ∈ ms -> accepts t m = true).
Proof.
  intros Hc.
  assert (Hloop : forall (k : string) (ms : list Metric) m,
             cache (recv (Apply_loop t batch)) !! k = Some ms -> m ∈ ms ->
             accepts t m = true)
    by (apply (Apply_loop_all (fun m => accepts t m = true)); auto).
  destruct (complete (Apply_loop t batch)) eqn:E.
  - rewrite Apply_flush by assumption. simpl. split.
    + intros a (k & ms & Hk & Ha)%aggregates_inv.
      destruct ms as [|m0 rest]; [discriminate|].
      rewrite Metric_facts.Aggregate_cons in Ha. injection Ha as ->.
      apply accepts_aggregate, (Hloop k (m0 :: rest)); [exact Hk|apply list_elem_of_here].
    + intros k ms m. now rewrite lookup_empty.
  - rewrite Apply_no_flush by assumption. simpl. split; [|exact Hloop].
    intros a Ha. now apply elem_of_nil in Ha.
Qed.

Lemma Apply_calls_accepted (batches : list (list Metric)) t :
  (forall (k : string) (ms : list Metric) m,
      cache t !! k = Some ms -> m ∈ ms -> accepts t m = true) ->
  forall a : Metric,
    Some a ∈ returned (fst (Apply_calls t batches)) -> accepts t a = true.
Proof.
  revert t. induction batches as [|b batches IH]; intros t Hc a.
  - simpl. intros Ha. now apply elem_of_nil in Ha.
  - rewrite Apply_calls_cons. unfold returned. simpl.
    destruct (Apply_accepted t b Hc) as [Hout Hc'].
    intros [Ha|Ha]%elem_of_app; [now apply Hout|].
    rewrite (accepts_Fields t (snd (Apply t b)))
      by (symmetry; apply Apply_config).
    apply IH; [|exact Ha].
    intros k ms m Hk Hin.
    rewrite <- (accepts_Fields t (snd (Apply t b)))
      by (symmetry; apply Apply_config).
    now apply (Hc' k ms).
Qed.

(** X6 — Only complete-looking reports come out.  Start from an empty
    cache and call [Apply] any number of times: every aggregate any of the
    calls returns is of a measurement the table lists and carries at least
    one of the fields required of that measurement. *)
Theorem returned_aggregates_are_listed t (batches : list (list Metric)) (a : Metric) :
  cache t = ∅ ->
  Some a ∈ returned (fst (Apply_calls t batches)) ->
  is_Some (Fields t !! Metric.Name a) /\
  exists f, f ∈ Fields t !!! Metric.Name a /\ Metric.HasField a f = true.
Proof.
  intros Hcache Ha.
  assert (Hacc : accepts t a = true).
  { apply (Apply_calls_accepted batches t); [|exact Ha].
    intros k ms m. now rewrite Hcache, lookup_empty. }
  split; [now apply accepts_listed|].
  unfold accepts in Hacc. apply existsb_exists in Hacc as (f & Hin & Hf).
  exists f. split; [now apply list_elem_of_In|exact Hf].
Qed.

(** X7 — A flush loses no field.  When a call of [Apply] flushes, every
    metric then in the cache, whether buffered by this call or before, has
    an aggregate in the returned batch that holds each of the metric's
    field keys (the value may be that of a later metric of the group). *)
Theorem flush_keeps_every_field t (batch : list Metric) (k : string)
    (ms : list Metric) m :
  complete (Apply_loop t batch) = true ->
  cache (recv (Apply_loop t batch)) !! k = Some ms ->
  m ∈ ms ->
  exists a : Metric,
    Some a ∈ fst (Apply t batch) /\
    forall key, Metric.HasField m key = true -> Metric.HasField a key = true.
Proof.
  intros Hc Hk Hin. rewrite Apply_flush by assumption. simpl.
  destruct ms as [|m0 rest]; [now apply elem_of_nil in Hin|].
  exists (fold_left writeField (laterWrites rest) (Metric.Copy m0)). split.
  - pose proof (aggregates_elem _ k _ Hk) as Hel.
    now rewrite Metric_facts.Aggregate_cons in Hel.
  - intros key Hkey. rewrite HasField_Aggregate.
    apply existsb_exists. exists m. split; [now apply list_elem_of_In|exact Hkey].
Qed.

(** *** The keys of an aggregate *)

Lemma fieldKeys_setField (fs : list Metric.Field) (k : string) (v : Metric.FieldValue) :
  List.map Metric.Key (Metric.setField fs k v)
  = if existsb (fun f => String.eqb k (Metric.Key f)) fs
    then List.map Metric.Key fs
    else List.map Metric.Key fs ++ [k].
Proof.
  induction fs as [|f fs IH]; [reflexivity|]. simpl.
  destruct (String.eqb_spec k (Metric.Key f)) as [->|Hne]; simpl; [reflexivity|].
  rewrite IH. now destruct (existsb _ fs).
Qed.

Lemma existsb_key_In (k : string) (fs : list Metric.Field) :
  existsb (fun f => String.eqb k (Metric.Key f)) fs = true <-> k ∈ List.map Metric.Key fs.
Proof.
  rewrite existsb_exists, list_elem_of_In, in_map_iff. split.
  - intros (f & Hin & ->%String.eqb_eq). eauto.
  - intros (f & <- & Hin). exists f. split; [exact Hin|apply String.eqb_refl].
Qed.

Lemma fieldKeys_writes (ws : list Metric.Field) (a : Metric) :
  fieldKeys a `prefix_of` fieldKeys (fold_left writeField ws a) /\
  (NoDup (fieldKeys a) -> NoDup (fieldKeys (fold_left writeField ws a))).
Proof.
  revert a. induction ws as [|w ws IH]; intros a; simpl; [split; [reflexivity|auto]|].
  destruct (IH (writeField a w)) as [Hpre Hnd].
  assert (Hstep : fieldKeys a `prefix_of` fieldKeys (writeField a w) /\
                  (NoDup (fieldKeys a) -> NoDup (fieldKeys (writeField a w)))).
  { unfold fieldKeys, writeField. simpl. rewrite fieldKeys_setField.
    destruct (existsb _ (Metric.FieldList a)) eqn:E; [split; [reflexivity|auto]|].
    split; [now apply prefix_app_r|].
    intros Hn. apply NoDup_app. split; [exact Hn|]. split; [|apply NoDup_singleton].
    intros x Hx ->%list_elem_of_singleton.
    apply existsb_key_In in Hx. congruence. }
  destruct Hstep as [Hpre' Hnd']. split; [now transitivity (fieldKeys (writeField a w))|auto].
Qed.

(** X8 — The fields of the first metric stay in place.  In the aggregate
    of a buffer the field keys of the first metric come first, in their
    order; keys that only later metrics bring follow them; and if the
    first metric has no key twice, neither has the aggregate, however
    often later metrics repeat a key. *)
Theorem Aggregate_keeps_key_order (m : Metric) (rest : list Metric) (agg : Metric) :
  fst (Aggregate (m :: rest)) = Some agg ->
  fieldKeys m `prefix_of` fieldKeys agg /\
  (NoDup (fieldKeys m) -> NoDup (fieldKeys agg)).
Proof.
  rewrite Metric_facts.Aggregate_cons. simpl. intros [= <-].
  apply (fieldKeys_writes (laterWrites rest) (Metric.Copy m)).
Qed.

(** *** The empty batch *)

Lemma groupkeyOf_not_empty m : groupkeyOf m <> EmptyString.
Proof.
  unfold groupkeyOf. destruct (Metric.Name m); [|discriminate].
  rewrite append_empty_l, append_cons. discriminate.
Qed.

(** X9 — The empty batch.  After any run of operations from an empty
    cache, a call of [Apply] with no metric at all either flushes the whole
    cache or does nothing, and the table alone decides which: it flushes
    exactly when the table requires no field of the measurement with the
    empty name (as when it has no entry for it); otherwise it returns the
    empty batch and leaves the engine as it is. *)
Theorem empty_batch t0 (ops : list Op) :
  cache t0 = ∅ ->
  let t := fst (run t0 [] ops) in
  Apply t [] = match Fields t !!! EmptyString with
               | [] => push t
               | _ :: _ => ([], t)
               end.
Proof.
  intros H0 t.
  assert (Hs : shape (cache t) (snd (run t0 [] ops))).
  { apply shape_run. rewrite H0. apply shape_empty. }
  assert (Hnone : cache t !!! EmptyString = []).
  { rewrite (shape_lookup_total _ _ _ Hs). unfold bufferOf. clear Hs.
    induction (snd (run t0 [] ops)) as [|m l IH]; [reflexivity|]. simpl.
    destruct (String.eqb_spec (groupkeyOf m) EmptyString) as [E|_]; [|exact IH].
    now apply groupkeyOf_not_empty in E. }
  unfold Apply, Apply_loop, complete. simpl. rewrite Hnone.
  now destruct (Fields t !!! EmptyString).
Qed.

End MoreEngine.

(* ===================================================================== *)
(** ** Floats: [<] is a strict order                                      *)
(* ===================================================================== *)

Module float64_facts.

Lemma compare_chain (e1 e2 e3 : Z) (m1 m2 m3 : positive) (c : comparison) :
  c <> Eq ->
  match e1 ?= e2 with Lt => Lt | Gt => Gt | Eq => Pos.compare_cont Eq m1 m2 end = c ->
  match e2 ?= e3 with Lt => Lt | Gt => Gt | Eq => Pos.compare_cont Eq m2 m3 end = c ->
  match e1 ?= e3 with Lt => Lt | Gt => Gt | Eq => Pos.compare_cont Eq m1 m3 end = c.
Proof.
  change (Pos.compare_cont Eq) with Pos.compare.
  intros Hc.
  destruct (Z.compare_spec e1 e2), (Z.compare_spec e2 e3), (Z.compare_spec e1 e3);
    try lia; try congruence; subst;
    destruct (Pos.compare_spec m1 m2), (Pos.compare_spec m2 m3), (Pos.compare_spec m1 m3);
    try lia; try congruence.
Qed.

(** No float is below itself (a NaN is below nothing). *)
Lemma lt_irrefl (x : float64.t) : float64.lt x x = false.
Proof.
  destruct x as [s|s| |s m e]; try (destruct s; reflexivity); try reflexivity.
  unfold float64.lt, SpecFloat.SFltb, SpecFloat.SFcompare. rewrite Z.compare_refl.
  change (Pos.compare_cont Eq m m) with (Pos.compare m m). rewrite Pos.compare_refl.
  now destruct s.
Qed.

Lemma lt_trans (x y z : float64.t) :
  float64.lt x y = true -> float64.lt y z = true -> float64.lt x z = true.
Proof.
  unfold float64.lt, SpecFloat.SFltb.
  destruct x as [sx|sx| |sx mx ex], y as [sy|sy| |sy my ey], z as [sz|sz| |sz mz ez];
    simpl; try discriminate; try (destruct sx, sy, sz; simpl; (discriminate || reflexivity)).
  all: destruct sx, sy, sz; simpl; try discriminate; try reflexivity.
  - intros H1 H2.
    assert (Hgt : match ex ?= ez with
                  | Lt => Lt | Gt => Gt | Eq => Pos.compare_cont Eq mx mz end = Gt).
    { apply (compare_chain ex ey ez mx my mz Gt); [discriminate| |].
      - destruct (ex ?= ey); try discriminate; [|reflexivity].
        destruct (Pos.compare_cont Eq mx my); simpl in H1; (discriminate || reflexivity).
      - destruct (ey ?= ez); try discriminate; [|reflexivity].
        destruct (Pos.compare_cont Eq my mz); simpl in H2; (discriminate || reflexivity). }
    destruct (ex ?= ez); try discriminate; [|reflexivity].
    now rewrite Hgt.
  - intros H1 H2.
    assert (Hlt : match ex ?= ez with
                  | Lt => Lt | Gt => Gt | Eq => Pos.compare_cont Eq mx mz end = Lt).
    { apply (compare_chain ex ey ez mx my mz Lt); [discriminate| |].
      - destruct (ex ?= ey); try discriminate; [|reflexivity].
        destruct (Pos.compare_cont Eq mx my); (discriminate || reflexivity).
      - destruct (ey ?= ez); try discriminate; [|reflexivity].
        destruct (Pos.compare_cont Eq my mz); (discriminate || reflexivity). }
    destruct (ex ?= ez); try discriminate; [|reflexivity].
    now rewrite Hlt.
Qed.

End float64_facts.

(* ===================================================================== *)
(** ** Loops over a map that write key by key                             *)
(* ===================================================================== *)

(** A loop over the entries of a map whose body changes the accumulator
    only at the key of the entry, and there by a function of the entry's
    value and of what the accumulator holds at that key. *)
Lemma map_fold_keywise {A B : Type} (f : string -> A -> gmap string B -> gmap string B)
    (g : A -> option B -> option B) (acc0 : gmap string B) (m : gmap string A) :
  (forall k v acc, f k v acc !! k = g v (acc !! k)) ->
  (forall k k' v acc, k <> k' -> f k v acc !! k' = acc !! k') ->
  forall k, map_fold f acc0 m !! k
            = match m !! k with Some v => g v (acc0 !! k) | None => acc0 !! k end.
Proof.
  intros Hsame Hother.
  apply (map_fold_weak_ind
           (fun r m => forall k, r !! k = match m !! k with
                                          | Some v => g v (acc0 !! k)
                                          | None => acc0 !! k end)).
  - intros k. now rewrite lookup_empty.
  - intros i x m' r Hi IH k. destruct (decide (i = k)) as [->|Hne].
    + rewrite Hsame, IH, Hi, lookup_insert_eq. reflexivity.
    + rewrite Hother, IH, lookup_insert_ne by assumption. reflexivity.
Qed.

Lemma append_length (a b : string) :
  String.length (a +:+ b) = (String.length a + String.length b)%nat.
Proof.
  induction a as [|c a IH]; [reflexivity|].
  rewrite append_cons. simpl. now rewrite IH.
Qed.

(** Appending a suffix is injective. *)
Lemma append_suffix_inj (s a b : string) : (a +:+ s = b +:+ s)%string -> a = b.
Proof.
  revert b. induction a as [|c a IH]; intros [|c' b] Heq;
    rewrite ?append_cons, ?append_empty_l in Heq.
  - reflexivity.
  - apply (f_equal String.length) in Heq. simpl in Heq.
    rewrite append_length in Heq. lia.
  - apply (f_equal String.length) in Heq. simpl in Heq.
    rewrite append_length in Heq. lia.
  - injection Heq as -> Heq. f_equal. now apply IH.
Qed.

(* ===================================================================== *)
(** ** The aggregator                                                     *)
(* ===================================================================== *)

Module Aggregator_facts.
Import Aggregator.
Section Facts.
Context `{MetricId}.
Implicit Types (m st : CycleStats) (ins : list Metric).

(** *** The two loops over the fields *)

Lemma numeric_convert (v : Metric.FieldValue) :
  numeric v = if snd (convert v) then Some (fst (convert v)) else None.
Proof. unfold numeric. now destruct (convert v) as [fv []]. Qed.

Lemma cacheField_lookup (fields : gmap string Metric.FieldValue) (k : string) :
  map_fold (fun k v fc => cacheField fc k v) ∅ fields !! k = fields !! k ≫= numeric.
Proof.
  rewrite (map_fold_keywise _ (fun v o => match numeric v with Some fv => Some fv | None => o end)).
  - rewrite lookup_empty. destruct (fields !! k) as [v|]; [simpl|reflexivity].
    now destruct (numeric v).
  - intros k' v acc. unfold cacheField, numeric.
    destruct (convert v) as [fv []]; [apply lookup_insert_eq|reflexivity].
  - intros k1 k2 v acc Hne. unfold cacheField.
    destruct (convert v) as [fv []]; [now apply lookup_insert_ne|reflexivity].
Qed.

Lemma minField_lookup (fc : gmap string float64.t)
    (fields : gmap string Metric.FieldValue) (k : string) :
  map_fold (fun k v fc => minField fc k v) fc fields !! k
  = match fields !! k ≫= numeric with
    | Some fv => lower (fc !! k) fv
    | None => fc !! k
    end.
Proof.
  rewrite (map_fold_keywise _ (fun v o => match numeric v with
                                           | Some fv => lower o fv
                                           | None => o end)).
  - destruct (fields !! k) as [v|]; reflexivity.
  - intros k' v acc. unfold minField, numeric, lower.
    destruct (convert v) as [fv []]; [|reflexivity].
    destruct (acc !! k') as [cur|] eqn:E; [|apply lookup_insert_eq].
    destruct (float64.lt fv cur); [apply lookup_insert_eq|exact E].
  - intros k1 k2 v acc Hne. unfold minField.
    destruct (convert v) as [fv []]; [|reflexivity].
    destruct (acc !! k1) as [cur|]; [|now apply lookup_insert_ne].
    destruct (float64.lt fv cur); [now apply lookup_insert_ne|reflexivity].
Qed.

(** *** The lowest value of a sequence *)

Lemma minOf_snoc (vs : list float64.t) (v : float64.t) :
  minOf (vs ++ [v]) = lower (minOf vs) v.
Proof. unfold minOf. now rewrite fold_left_app. Qed.

Lemma minOf_spec (vs : list float64.t) :
  match minOf vs with
  | None => vs = []
  | Some v => v ∈ vs /\ forall x, x ∈ vs -> float64.lt x v = false
  end.
Proof.
  induction vs as [|a vs IH] using rev_ind; [reflexivity|].
  rewrite minOf_snoc. destruct (minOf vs) as [c|]; simpl.
  - destruct IH as [Hin Hlow].
    destruct (float64.lt a c) eqn:E.
    + split; [apply elem_of_app; right; apply list_elem_of_here|].
      intros x [Hx| ->%list_elem_of_singleton]%elem_of_app;
        [|apply float64_facts.lt_irrefl].
      destruct (float64.lt x a) eqn:Hxa; [|reflexivity].
      rewrite <- (Hlow x Hx). symmetry. now apply float64_facts.lt_trans with a.
    + split; [apply elem_of_app; now left|].
      intros x [Hx| ->%list_elem_of_singleton]%elem_of_app; [now apply Hlow|exact E].
  - subst vs. split; [apply list_elem_of_here|].
    intros x ->%list_elem_of_singleton. apply float64_facts.lt_irrefl.
Qed.

(** *** What a sequence of [Add]s leaves in the caches *)

Lemma Adds_snoc m ins (x : Metric) :
  Adds m (ins ++ [x]) = match Adds m ins with Some st => Add st x | None => None end.
Proof.
  revert m. induction ins as [|y ins IH]; intros m; simpl.
  - now destruct (Add m x).
  - destruct (Add m y); [apply IH|reflexivity].
Qed.

Lemma first_snoc (id : Z) ins (x : Metric) :
  first id (ins ++ [x])
  = match first id ins with
    | Some f => Some f
    | None => if decide (HashID x = id) then Some x else None
    end.
Proof.
  unfold first. induction ins as [|y ins IH]; simpl.
  - destruct (decide (HashID x = id));
      [now rewrite bool_decide_eq_true_2|now rewrite bool_decide_eq_false_2].
  - destruct (bool_decide (HashID y = id)); [reflexivity|exact IH].
Qed.

Lemma seen_snoc (id : Z) (k : string) ins (x : Metric) :
  seen id k (ins ++ [x])
  = seen id k ins
    ++ (if decide (HashID x = id)
        then option_list (MetricMaps.Fields x !! k ≫= numeric) else []).
Proof.
  unfold seen. rewrite omap_app. f_equal. simpl.
  destruct (decide (HashID x = id)); [|reflexivity].
  now destruct (MetricMaps.Fields x !! k ≫= numeric).
Qed.

Lemma first_None_seen (id : Z) (k : string) ins :
  first id ins = None -> seen id k ins = [].
Proof.
  unfold first, seen. induction ins as [|y ins IH]; [reflexivity|]. simpl.
  destruct (decide (HashID y = id)) as [E|E].
  - now rewrite bool_decide_eq_true_2.
  - rewrite bool_decide_eq_false_2 by assumption. exact IH.
Qed.

Lemma first_Some (id : Z) ins :
  is_Some (first id ins) <-> exists in_, in_ ∈ ins /\ HashID in_ = id.
Proof.
  unfold first. split.
  - intros [f Hf]. apply find_some in Hf as [Hin Hid].
    exists f. split; [now apply list_elem_of_In|now apply bool_decide_eq_true in Hid].
  - intros (in_ & Hin & Hid).
    destruct (List.find _ ins) as [f|] eqn:E; [eauto|].
    apply list_elem_of_In in Hin. apply (find_none _ _ E in_) in Hin.
    now rewrite bool_decide_eq_true_2 in Hin.
Qed.

Lemma Add_tracks st ins (x : Metric) :
  tracks st ins -> exists st', Add st x = Some st' /\ tracks st' (ins ++ [x]).
Proof.
  intros (Hname & Htag & Hfield). unfold Add.
  destruct (nameCache st !! HashID x) as [n|] eqn:En.
  - assert (Hfirst : is_Some (first (HashID x) ins)).
    { rewrite Hname in En. destruct (first (HashID x) ins); [eauto|discriminate]. }
    pose proof (Hfield (HashID x)) as Hfc.
    destruct (fieldCache st !! HashID x) as [fc|] eqn:Ef;
      [|rewrite Hfc in Hfirst; now destruct Hfirst].
    eexists. split; [reflexivity|]. unfold tracks. simpl. split; [|split].
    + intros id. rewrite first_snoc, Hname.
      destruct (first id ins) eqn:E; [reflexivity|].
      destruct (decide (HashID x = id)) as [<-|]; [|reflexivity].
      rewrite E in Hfirst. now destruct Hfirst.
    + intros id. rewrite first_snoc, Htag.
      destruct (first id ins) eqn:E; [reflexivity|].
      destruct (decide (HashID x = id)) as [<-|]; [|reflexivity].
      rewrite E in Hfirst. now destruct Hfirst.
    + intros id. destruct (decide (HashID x = id)) as [<-|Hne].
      * rewrite lookup_insert_eq. split.
        { rewrite first_snoc. destruct Hfirst as [f ->]. eauto. }
        intros k. rewrite minField_lookup, seen_snoc.
        destruct (decide (HashID x = HashID x)); [|congruence].
        destruct Hfc as [_ Hfc]. rewrite Hfc.
        destruct (MetricMaps.Fields x !! k ≫= numeric) as [fv|]; simpl.
        -- now rewrite minOf_snoc.
        -- now rewrite app_nil_r.
      * rewrite lookup_insert_ne by assumption.
        specialize (Hfield id). rewrite first_snoc.
        destruct (fieldCache st !! id) as [fc'|].
        -- destruct Hfield as [[f Hf] Hk]. rewrite Hf. split; [eauto|].
           intros k. rewrite seen_snoc, Hk.
           destruct (decide (HashID x = id)); [congruence|]. now rewrite app_nil_r.
        -- rewrite Hfield. now destruct (decide (HashID x = id)).
  - assert (Hfirst : first (HashID x) ins = None).
    { rewrite Hname in En. now destruct (first (HashID x) ins). }
    eexists. split; [reflexivity|]. unfold tracks. simpl. split; [|split].
    + intros id. rewrite first_snoc. destruct (decide (HashID x = id)) as [<-|Hne].
      * now rewrite lookup_insert_eq, Hfirst.
      * rewrite lookup_insert_ne, Hname by assumption. now destruct (first id ins).
    + intros id. rewrite first_snoc. destruct (decide (HashID x = id)) as [<-|Hne].
      * now rewrite lookup_insert_eq, Hfirst.
      * rewrite lookup_insert_ne, Htag by assumption. now destruct (first id ins).
    + intros id. rewrite first_snoc. destruct (decide (HashID x = id)) as [<-|Hne].
      * rewrite lookup_insert_eq, Hfirst. split; [eauto|].
        intros k. rewrite cacheField_lookup, seen_snoc.
        rewrite (first_None_seen _ k _ Hfirst).
        destruct (decide (HashID x = HashID x)); [|congruence].
        now destruct (MetricMaps.Fields x !! k ≫= numeric).
      * rewrite lookup_insert_ne by assumption.
        specialize (Hfield id).
        destruct (fieldCache st !! id) as [fc'|].
        -- destruct Hfield as [[f Hf] Hk]. rewrite Hf. split; [eauto|].
           intros k. rewrite seen_snoc, Hk.
           destruct (decide (HashID x = id)); [congruence|]. now rewrite app_nil_r.
        -- now rewrite Hfield.
Qed.

Lemma Adds_tracks ins : exists st, Adds NewCycleStats ins = Some st /\ tracks st ins.
Proof.
  induction ins as [|x ins IH] using rev_ind.
  - exists NewCycleStats. split; [reflexivity|].
    repeat split; intros id; simpl; now rewrite lookup_empty.
  - destruct IH as (st & Hst & Htr).
    destruct (Add_tracks st ins x Htr) as (st' & Hadd & Htr').
    exists st'. split; [|exact Htr']. now rewrite Adds_snoc, Hst.
Qed.

(** X10 — [Add] never panics.  From a fresh aggregator every sequence of
    [Add]s runs through (the write to a nil field cache is never reached),
    and the three caches keep the same series: exactly the hashes of the
    metrics added. *)
Theorem Add_never_panics ins :
  exists st,
    Adds NewCycleStats ins = Some st /\
    dom (fieldCache st) = dom (nameCache st) /\
    dom (tagCache st) = dom (nameCache st) /\
    forall id, id ∈ dom (nameCache st) <-> exists in_, in_ ∈ ins /\ HashID in_ = id.
Proof.
  destruct (Adds_tracks ins) as (st & Hst & Hname & Htag & Hfield).
  exists st. split; [exact Hst|].
  assert (Hn : forall id, is_Some (nameCache st !! id) <-> is_Some (first id ins)).
  { intros id. rewrite Hname. now rewrite fmap_is_Some. }
  split; [|split].
  - apply set_eq. intros id. rewrite !elem_of_dom, Hn.
    specialize (Hfield id). destruct (fieldCache st !! id) as [fc|].
    + destruct Hfield as [Hf _]. split; [now intros _|eauto].
    + rewrite Hfield. split; intros [? ?]; discriminate.
  - apply set_eq. intros id. rewrite !elem_of_dom, Hn, Htag. now rewrite fmap_is_Some.
  - intros id. rewrite elem_of_dom, Hn. apply first_Some.
Qed.

(** X11 — A series is its hash, and is called after its first metric.
    After any sequence of [Add]s on a fresh aggregator, each series is
    cached under the name and the tags of the first metric that had its
    hash; the names and tags of later metrics with that hash are never
    looked at. *)
Theorem series_named_after_first ins :
  exists st,
    Adds NewCycleStats ins = Some st /\
    forall id,
      nameCache st !! id = Metric.Name <$> first id ins /\
      tagCache st !! id = MetricMaps.Tags <$> first id ins.
Proof.
  destruct (Adds_tracks ins) as (st & Hst & Hname & Htag & _).
  exists st. split; [exact Hst|]. intros id. split; [apply Hname|apply Htag].
Qed.

(** X12 — The cache holds a lowest value.  After any sequence of [Add]s on
    a fresh aggregator, a field of a series is cached if and only if some
    metric of the series held a float64 or int64 value under it (string,
    bool and uint64 values are never cached); the cached value is one of
    those values, and none of them is below it. *)
Theorem cached_value_is_lowest ins :
  exists st,
    Adds NewCycleStats ins = Some st /\
    forall (id : Z) (k : string),
      match fieldCache st !! id ≫= (fun fc => fc !! k) with
      | None => seen id k ins = []
      | Some v => v ∈ seen id k ins /\
                  forall x, x ∈ seen id k ins -> float64.lt x v = false
      end.
Proof.
  destruct (Adds_tracks ins) as (st & Hst & _ & _ & Hfield).
  exists st. split; [exact Hst|]. intros id k.
  specialize (Hfield id). destruct (fieldCache st !! id) as [fc|]; simpl.
  - destruct Hfield as [_ Hk]. rewrite Hk. apply minOf_spec.
  - now apply first_None_seen.
Qed.

(** *** [Push] *)

Lemma minFields_lookup (fc : gmap string float64.t) (key : string) (v : float64.t) :
  minFields fc !! key = Some v
  <-> exists k : string, key = (k +:+ "_min")%string /\ fc !! k = Some v.
Proof.
  unfold minFields. revert key v.
  apply (map_fold_weak_ind
           (fun (r : gmap string float64.t) (m : gmap string float64.t) =>
              forall key v, r !! key = Some v
                            <-> exists k : string, key = (k +:+ "_min")%string /\ m !! k = Some v)).
  - intros key v. rewrite lookup_empty. split; [discriminate|].
    intros (k & _ & Hk). now rewrite lookup_empty in Hk.
  - intros i x m r Hi IH key v.
    destruct (decide (key = (i +:+ "_min")%string)) as [->|Hne].
    + rewrite lookup_insert_eq. split.
      * intros [= <-]. exists i. split; [reflexivity|apply lookup_insert_eq].
      * intros (k & Hk%append_suffix_inj & Hv). subst k.
        now rewrite lookup_insert_eq in Hv.
    + rewrite lookup_insert_ne by congruence. rewrite IH. split.
      * intros (k & -> & Hk). exists k. split; [reflexivity|].
        rewrite lookup_insert_ne; [exact Hk|]. intros ->. congruence.
      * intros (k & -> & Hk). exists k. split; [reflexivity|].
        rewrite lookup_insert_ne in Hk; [exact Hk|]. intros ->. congruence.
Qed.

Lemma foldr_calls {A} (call : Z -> AddFieldsCall) (l : list (Z * A))
    (acc : list AddFieldsCall) :
  foldr (fun (kv : Z * A) acc => acc ++ [call (fst kv)]) acc l
  = acc ++ rev (call <$> l.*1).
Proof.
  induction l as [|[id a] l IH]; simpl.
  - now rewrite app_nil_r.
  - rewrite IH. now rewrite <- app_assoc.
Qed.

Lemma fmap_rev {A B} (f : A -> B) (l : list A) : f <$> rev l = rev (f <$> l).
Proof.
  induction l as [|x l IH]; [reflexivity|].
  simpl. now rewrite fmap_app, IH.
Qed.

Lemma elem_of_rev {A} (x : A) (l : list A) : x ∈ rev l <-> x ∈ l.
Proof. rewrite !list_elem_of_In. symmetry. apply in_rev. Qed.

(** X13 — One call per series, fields suffixed.  [Push] leaves the calls
    made before in place and in order and adds after them exactly one call
    per cached series, the same calls whatever was there before: the call
    carries the cached name and tags of the series, and under each key
    [k_min] the value cached for field [k], with no other key. *)
Theorem Push_one_call_per_series m :
  exists ids : list Z,
    NoDup ids /\
    (forall id : Z, id ∈ ids <-> is_Some (nameCache m !! id)) /\
    (forall acc : list AddFieldsCall, Push m acc = acc ++ (callOf m <$> ids)) /\
    forall (id : Z) (key : string) (v : float64.t),
      fields (callOf m id) !! key = Some v
      <-> exists k : string,
            key = (k +:+ "_min")%string /\ (fieldCache m !!! id) !! k = Some v.
Proof.
  exists (rev (map_to_list (nameCache m)).*1). split; [|split; [|split]].
  - rewrite <- Permutation_rev. apply NoDup_fst_map_to_list.
  - intros id. rewrite elem_of_rev, list_elem_of_fmap. split.
    + intros [[id' name] [-> Hin%elem_of_map_to_list]]. now exists name.
    + intros [name Hname]. exists (id, name).
      split; [reflexivity|now apply elem_of_map_to_list].
  - intros acc. unfold Push. rewrite map_fold_foldr.
    change (fun (id : Z) (_ : string) (acc0 : list AddFieldsCall) =>
              acc0 ++ [ {| measurement := nameCache m !!! id;
                           fields := minFields (fieldCache m !!! id);
                           tags := tagCache m !!! id |} ])
      with (fun (id : Z) (_ : string) (acc0 : list AddFieldsCall) => acc0 ++ [callOf m id]).
    rewrite (foldr_ext _ (fun (kv : Z * string) acc0 => acc0 ++ [callOf m (fst kv)])
               acc acc (map_to_list (nameCache m)) (map_to_list (nameCache m)))
      by (try reflexivity; now intros [] ?).
    rewrite foldr_calls. now rewrite fmap_rev.
  - intros id key v. apply minFields_lookup.
Qed.

End Facts.
End Aggregator_facts.

(* ===================================================================== *)
(** ** The metadata processor                                             *)
(* ===================================================================== *)

Module Metadata_facts.
Import Metadata.

(** *** Tags *)

Lemma find_insertTag_eq (tags : list Metric.Tag) (k v : string) :
  List.find (fun tag => String.eqb k (Metric.TagKey tag)) (MetricTags.insertTag tags k v)
  = Some {| Metric.TagKey := k; Metric.TagValue := v |}.
Proof.
  induction tags as [|tag tags IH]; simpl.
  - now rewrite String.eqb_refl.
  - destruct (String.ltb (Metric.TagKey tag) k) eqn:El; simpl.
    + destruct (String.eqb_spec k (Metric.TagKey tag)) as [E|_]; [|exact IH].
      exfalso. unfold String.ltb in El. rewrite <- E in El.
      assert (Hc : String.compare k k = Eq).
      { clear. induction k as [|c k IH]; [reflexivity|]. simpl.
        replace (Ascii.compare c c) with Eq; [exact IH|].
        symmetry. unfold Ascii.compare. apply N.compare_refl. }
      now rewrite Hc in El.
    + destruct (String.eqb k (Metric.TagKey tag)); simpl; now rewrite String.eqb_refl.
Qed.

Lemma find_insertTag_ne (tags : list Metric.Tag) (k v key : string) :
  key <> k ->
  List.find (fun tag => String.eqb key (Metric.TagKey tag)) (MetricTags.insertTag tags k v)
  = List.find (fun tag => String.eqb key (Metric.TagKey tag)) tags.
Proof.
  intros Hne. assert (Hk : String.eqb key k = false) by now apply String.eqb_neq.
  induction tags as [|tag tags IH]; simpl.
  - now rewrite Hk.
  - destruct (String.ltb (Metric.TagKey tag) k); simpl.
    + now rewrite IH.
    + destruct (String.eqb_spec k (Metric.TagKey tag)) as [E|_]; simpl; rewrite Hk.
      * rewrite <- E. now rewrite Hk.
      * reflexivity.
Qed.

(** Reading a tag back after [AddTag]. *)
Lemma GetTag_AddTag (m : Metric) (k v key : string) :
  MetricTags.GetTag (MetricTags.AddTag m k v) key
  = if String.eqb key k then Some v else MetricTags.GetTag m key.
Proof.
  unfold MetricTags.GetTag, MetricTags.AddTag. simpl.
  destruct (String.eqb_spec key k) as [->|Hne].
  - now rewrite find_insertTag_eq.
  - now rewrite find_insertTag_ne.
Qed.

Section Facts.
Context `{Outside}.
Implicit Types (r : MetadataProcessor) (w : World).

(** *** The switch *)

(** What one turn of the loop over the portal tags does to the metric,
    case by case. *)
Lemma attach_cases (cache : gmap string Z) (typ : string) (m : Metric) (tag : string) :
  let v := default 0 (cache !! tag) in
  attach cache typ m tag = m \/
  (v <> 0 /\
   ((tag = "steam_cycle"%string /\ typ = "steam"%string) \/
    (tag = "grind_cycle"%string /\ typ = "grind"%string) \/
    (tag = "metadata"%string /\ typ = "notification"%string)) /\
   attach cache typ m tag = Metric.AddField m tag (Metric.VInt v)) \/
  (v <> 0 /\ tag = "metadata"%string /\
   (typ = "steam"%string \/ typ = "grind"%string) /\
   attach cache typ m tag = MetricTags.AddTag m tag (Sprint v)).
Proof.
  intros v. unfold attach. fold v.
  destruct (Z.eqb_spec v 0) as [|Hv]; [now left|].
  destruct (String.eqb_spec tag "steam_cycle") as [Es|];
    destruct (String.eqb_spec typ "steam") as [Ea|];
    destruct (String.eqb_spec tag "metadata") as [Et|];
    destruct (String.eqb_spec tag "grind_cycle") as [Eg|];
    destruct (String.eqb_spec typ "grind") as [Ey|];
    destruct (String.eqb_spec typ "notification") as [En|];
    try congruence; simpl; try (now left);
    try (right; left; split; [exact Hv|]; split; [|reflexivity]; tauto);
    try (right; right; split; [exact Hv|]; split; [assumption|]; split; [|reflexivity]; tauto).
Qed.

Lemma attach_Name (cache : gmap string Z) (typ : string) (m : Metric) (tag : string) :
  Metric.Name (attach cache typ m tag) = Metric.Name m /\
  Metric.Time (attach cache typ m tag) = Metric.Time m.
Proof.
  destruct (attach_cases cache typ m tag) as [->|[(_ & _ & ->)|(_ & _ & _ & ->)]];
    split; reflexivity.
Qed.

(** *** The loop over the portal tags *)

(** What the loop leaves untouched, whatever the cache and the tags. *)
Lemma tags_loop_keeps (cache : gmap string Z) (typ : string) (tags : list string)
    (m : Metric) :
  let m' := fold_left (attach cache typ) tags m in
  Metric.Name m' = Metric.Name m /\
  Metric.Time m' = Metric.Time m /\
  (forall key : string,
      key <> "steam_cycle"%string -> key <> "grind_cycle"%string ->
      key <> "metadata"%string ->
      Metric.GetField m' key = Metric.GetField m key) /\
  (forall key : string,
      key <> "metadata"%string -> MetricTags.GetTag m' key = MetricTags.GetTag m key) /\
  (typ <> "steam"%string -> typ <> "grind"%string -> typ <> "notification"%string ->
   m' = m).
Proof.
  revert m. induction tags as [|tag tags IH]; intros m; simpl.
  - repeat split; reflexivity.
  - destruct (IH (attach cache typ m tag)) as (Hn & Ht & Hf & Hg & Hid).
    destruct (attach_Name cache typ m tag) as [Hn' Ht'].
    split; [congruence|]. split; [congruence|]. split; [|split].
    + intros key H1 H2 H3. rewrite Hf by assumption.
      destruct (attach_cases cache typ m tag)
        as [->|[(_ & Hc & ->)|(_ & _ & _ & ->)]]; try reflexivity.
      rewrite Metric_facts.GetField_AddField.
      destruct (String.eqb_spec key tag) as [->|]; [|reflexivity].
      destruct Hc as [[? _]|[[? _]|[? _]]]; congruence.
    + intros key H1. rewrite Hg by assumption.
      destruct (attach_cases cache typ m tag)
        as [->|[(_ & _ & ->)|(_ & Ht1 & _ & ->)]]; try reflexivity.
      rewrite GetTag_AddTag.
      destruct (String.eqb_spec key tag) as [->|]; [congruence|reflexivity].
    + intros H1 H2 H3. rewrite Hid by assumption.
      destruct (attach_cases cache typ m tag)
        as [E|[(_ & Hc & _)|(_ & _ & Hc & _)]]; [exact E| |].
      * destruct Hc as [[_ ?]|[[_ ?]|[_ ?]]]; congruence.
      * destruct Hc; congruence.
Qed.

(** *** [getMetadata] *)

(** X14 — Only the status codes 201 to 304 are taken for success.  When
    the URL is one [http.NewRequest] accepts, [getMetadata] sends exactly
    one request and returns; it returns without error if and only if the
    answer has a status code above 200 and below 305, a body that can be
    read and JSON that can be decoded, and then the cache holds the three
    counters of the decoded record; in every other case, a plain 200 OK
    among them, it returns an error and the zero record and leaves the
    processor as it was. *)
Theorem only_201_to_304_succeed r w (tm : gotime.Time) (apiKey apiUrl : string) :
  url_valid apiUrl = true ->
  let req := metadataRequest tm apiKey apiUrl in
  exists r' (resp : Response) (err : option error),
    getMetadata r w tm apiKey apiUrl
    = Some (r', {| meta_resp := meta_resp w; sent := sent w ++ [req] |}, (resp, err)) /\
    (err = None <->
     exists (code : Z) (status body : string),
       client_Do (length (sent w)) req = Http.Answers code status (inr body) /\
       200 < code < 305 /\ json_Unmarshal body = inr resp) /\
    (err = None -> r' = setMetaCache r resp) /\
    (err <> None -> r' = r /\ resp = noResponse) /\
    (forall (status : string) (read : error + string),
        client_Do (length (sent w)) req = Http.Answers 200 status read ->
        err = Some ("unsuccessful status code: " +:+ status)%string).
Proof.
  intros Hurl req. unfold getMetadata. rewrite Hurl. simpl. fold req.
  destruct (client_Do (length (sent w)) req) as [e|code status read] eqn:Ex.
  - eexists _, _, _. split; [reflexivity|]. split; [|split; [|split]].
    + split; [discriminate|]. intros (? & ? & ? & ? & _). discriminate.
    + discriminate.
    + intros _. split; reflexivity.
    + discriminate.
  - destruct ((305 <=? code) || (code <=? 200)) eqn:Eg.
    + eexists _, _, _. split; [reflexivity|]. split; [|split; [|split]].
      * split; [discriminate|]. intros (c & s & b & [= -> -> ->] & Hr & _).
        apply orb_true_iff in Eg as [Eg|Eg]; [apply Z.leb_le in Eg|apply Z.leb_le in Eg]; lia.
      * discriminate.
      * intros _. split; reflexivity.
      * intros s rd [= _ Hs _]. now rewrite Hs.
    + apply orb_false_iff in Eg as [Eg1 Eg2].
      apply Z.leb_gt in Eg1. apply Z.leb_gt in Eg2.
      destruct read as [e|body].
      * eexists _, _, _. split; [reflexivity|]. split; [|split; [|split]].
        -- split; [discriminate|]. intros (c & s & b & [=] & _).
        -- discriminate.
        -- intros _. split; reflexivity.
        -- intros s rd [= Hcode _ _]. lia.
      * destruct (json_Unmarshal body) as [e|result] eqn:Ej.
        -- eexists _, _, _. split; [reflexivity|]. split; [|split; [|split]].
           ++ split; [discriminate|].
              intros (c & s & b & [= -> -> ->] & _ & Hj). congruence.
           ++ discriminate.
           ++ intros _. split; reflexivity.
           ++ intros s rd [= Hcode _ _]. lia.
        -- eexists _, _, _. split; [reflexivity|]. split; [|split; [|split]].
           ++ split; [|reflexivity]. intros _. exists code, status, body.
              split; [reflexivity|]. split; [lia|exact Ej].
           ++ reflexivity.
           ++ congruence.
           ++ intros s rd [= Hcode _ _]. lia.
Qed.

(** *** [Apply] *)

Lemma Apply_body_shape r w (m : Metric) r' w' (m' : Metric) :
  Apply_body r w m = Some (r', w', m') ->
  PortalTags r' = PortalTags r /\ ApiKey r' = ApiKey r /\ ApiUrl r' = ApiUrl r /\
  m' = fold_left (attach (metaCache r') (Metric.Name m)) (PortalTags r') m.
Proof.
  unfold Apply_body.
  set (r0 := if String.eqb (Metric.Name m) "state_change" then clearMetaCache r else r).
  assert (H0 : PortalTags r0 = PortalTags r /\ ApiKey r0 = ApiKey r /\ ApiUrl r0 = ApiUrl r)
    by (unfold r0; destruct (String.eqb _ _); repeat split).
  destruct H0 as (Hp & Hk & Hu).
  destruct (metaCache r0 !! "metadata"%string) as [v|].
  - intros [= <- <- <-]. repeat split; assumption.
  - unfold getMetadata. destruct (negb (url_valid (ApiUrl r0))); [discriminate|].
    destruct (client_Do _ _) as [e|code status read].
    + intros [= <- <- <-]. repeat split; assumption.
    + destruct ((305 <=? code) || (code <=? 200)).
      * intros [= <- <- <-]. repeat split; assumption.
      * destruct read as [e|body]; [intros [= <- <- <-]; repeat split; assumption|].
        destruct (json_Unmarshal body) as [e|result];
          intros [= <- <- <-]; repeat split; assumption.
Qed.

(** X15 — The processor only enriches.  A call of [Apply] that returns
    hands back the metrics of its batch, as many and in their order, each
    with its name and timestamp; no field other than "steam_cycle",
    "grind_cycle" and "metadata" and no tag other than "metadata" is
    added or changed; and a metric whose measurement is none of "steam",
    "grind" and "notification" comes back exactly as it went in. *)
Theorem Apply_only_enriches r w (batch : list Metric) r' w' (out : list Metric) :
  Apply r w batch = Some (r', w', out) ->
  Forall2 (fun m m' : Metric =>
             Metric.Name m' = Metric.Name m /\
             Metric.Time m' = Metric.Time m /\
             (forall key : string,
                 key <> "steam_cycle"%string -> key <> "grind_cycle"%string ->
                 key <> "metadata"%string ->
                 Metric.GetField m' key = Metric.GetField m key) /\
             (forall key : string,
                 key <> "metadata"%string ->
                 MetricTags.GetTag m' key = MetricTags.GetTag m key) /\
             (Metric.Name m <> "steam"%string -> Metric.Name m <> "grind"%string ->
              Metric.Name m <> "notification"%string -> m' = m))
          batch out.
Proof.
  revert r w r' w' out. induction batch as [|m batch IH]; intros r w r' w' out; simpl.
  - intros [= <- <- <-]. constructor.
  - destruct (Apply_body r w m) as [[[r1 w1] m1]|] eqn:Eb; [|discriminate].
    destruct (Apply r1 w1 batch) as [[[r2 w2] out2]|] eqn:Ea; [|discriminate].
    intros [= <- <- <-]. constructor; [|now apply (IH r1 w1 r2 w2)].
    apply Apply_body_shape in Eb as (_ & _ & _ & ->).
    apply tags_loop_keeps.
Qed.

(** One iteration with the metadata cached and a metric that is no
    control metric. *)
Lemma Apply_body_cached r w (m : Metric) :
  is_Some (metaCache r !! "metadata"%string) ->
  Metric.Name m <> "state_change"%string ->
  Apply_body r w m = Some (r, w, enrich r m).
Proof.
  intros [v Hv] Hn. unfold Apply_body.
  apply String.eqb_neq in Hn. rewrite Hn, Hv. reflexivity.
Qed.

(** X16 — With the metadata cached nothing is fetched.  While the cache
    holds an entry "metadata", a batch without a "state_change" metric is
    processed without any request: the processor, its cache, the record
    last fetched and the requests sent stay what they were, the call
    cannot panic, and each metric gets what the loop over the portal tags
    attaches from the cache. *)
Theorem cached_metadata_sends_nothing r w (batch : list Metric) :
  is_Some (metaCache r !! "metadata"%string) ->
  Forall (fun m => Metric.Name m <> "state_change"%string) batch ->
  Apply r w batch = Some (r, w, enrich r <$> batch).
Proof.
  intros Hc Hb. induction Hb as [|m batch Hm _ IH]; [reflexivity|].
  simpl. now rewrite Apply_body_cached, IH.
Qed.

Lemma Apply_single r w (m : Metric) :
  Apply r w [m]
  = match Apply_body r w m with
    | Some (r', w', m') => Some (r', w', [m'])
    | None => None
    end.
Proof. simpl. now destruct (Apply_body r w m) as [[[? ?] ?]|]. Qed.

(** X17 — A "state_change" metric always refetches.  Processing a metric
    named "state_change" (the URL being one [http.NewRequest] accepts)
    clears the cache and sends exactly one request, for the time of that
    metric; afterwards the cache is empty, or it holds the three counters
    of the record just fetched and nothing else: no entry from before the
    state change survives.  The control metric itself comes back
    unchanged. *)
Theorem state_change_refetches r w (sc : Metric) :
  Metric.Name sc = "state_change"%string ->
  url_valid (ApiUrl r) = true ->
  exists r' w',
    Apply r w [sc] = Some (r', w', [sc]) /\
    sent w' = sent w ++ [metadataRequest (InUTC (Metric.Time sc)) (ApiKey r) (ApiUrl r)] /\
    (metaCache r' = ∅ \/
     exists resp : Response,
       meta_resp w' = resp /\
       metaCache r' = <["grind_cycle"%string := GrindCycle resp]>
                        (<["steam_cycle"%string := SteamCycle resp]>
                           (<["metadata"%string := Id resp]> ∅))).
Proof.
  intros Hn Hurl.
  assert (Hsame : forall (c : gmap string Z) (tags : list string),
             fold_left (attach c (Metric.Name sc)) tags sc = sc).
  { intros c tags. apply tags_loop_keeps; rewrite Hn; discriminate. }
  rewrite Apply_single. unfold Apply_body.
  replace (String.eqb (Metric.Name sc) "state_change") with true
    by (symmetry; now apply String.eqb_eq).
  change (metaCache (clearMetaCache r)) with (∅ : gmap string Z).
  rewrite lookup_empty. unfold getMetadata.
  change (ApiUrl (clearMetaCache r)) with (ApiUrl r).
  change (ApiKey (clearMetaCache r)) with (ApiKey r).
  rewrite Hurl. cbn [negb].
  destruct (client_Do _ _) as [e|code status read].
  - rewrite Hsame. eexists _, _. split; [reflexivity|]. split; [reflexivity|now left].
  - destruct ((305 <=? code) || (code <=? 200)).
    + rewrite Hsame. eexists _, _. split; [reflexivity|]. split; [reflexivity|now left].
    + destruct read as [e|body].
      * rewrite Hsame. eexists _, _. split; [reflexivity|]. split; [reflexivity|now left].
      * destruct (json_Unmarshal body) as [e|result].
        -- rewrite Hsame. eexists _, _.
           split; [reflexivity|]. split; [reflexivity|now left].
        -- rewrite Hsame. eexists _, _.
           split; [reflexivity|]. split; [reflexivity|]. right.
           exists result. split; reflexivity.
Qed.

Lemma tags_loop_empty (typ : string) (tags : list string) (m : Metric) :
  fold_left (attach ∅ typ) tags m = m.
Proof.
  induction tags as [|tag tags IH]; [reflexivity|]. simpl.
  unfold attach at 2. now rewrite lookup_empty.
Qed.


(** *** What the loop over the portal tags attaches *)

Lemma cycle_field_step (cache : gmap string Z) (typ cycle : string) (m : Metric)
    (tag : string) :
  (cycle = "steam_cycle"%string /\ typ = "steam"%string) \/
  (cycle = "grind_cycle"%string /\ typ = "grind"%string) \/
  (cycle = "metadata"%string /\ typ = "notification"%string) ->
  Metric.GetField (attach cache typ m tag) cycle
  = if String.eqb tag cycle && negb (default 0 (cache !! cycle) =? 0)
    then Some (Metric.VInt (default 0 (cache !! cycle)))
    else Metric.GetField m cycle.
Proof.
  intros [[-> ->]|[[-> ->]|[-> ->]]]; unfold attach;
    destruct (String.eqb_spec tag "steam_cycle") as [Es|Es];
    destruct (String.eqb_spec tag "grind_cycle") as [Eg|Eg];
    destruct (String.eqb_spec tag "metadata") as [Em|Em];
    try congruence; try subst tag; simpl;
    destruct (default 0 (cache !! _) =? 0); simpl; try reflexivity;
    rewrite Metric_facts.GetField_AddField; reflexivity.
Qed.

Lemma cycle_field_loop (cache : gmap string Z) (typ cycle : string)
    (tags : list string) (m0 : Metric) :
  (cycle = "steam_cycle"%string /\ typ = "steam"%string) \/
  (cycle = "grind_cycle"%string /\ typ = "grind"%string) \/
  (cycle = "metadata"%string /\ typ = "notification"%string) ->
  Metric.GetField (fold_left (attach cache typ) tags m0) cycle
  = if existsb (fun tag => String.eqb tag cycle) tags
       && negb (default 0 (cache !! cycle) =? 0)
    then Some (Metric.VInt (default 0 (cache !! cycle)))
    else Metric.GetField m0 cycle.
Proof.
  intros Hcase. revert m0.
  induction tags as [|tag tags IH]; intros m0; simpl.
  - reflexivity.
  - rewrite IH, cycle_field_step by exact Hcase.
    destruct (String.eqb tag cycle); simpl; [|reflexivity].
    destruct (default 0 (cache !! cycle) =? 0); simpl;
      [now rewrite andb_false_r|now destruct (existsb _ tags)].
Qed.

(** X19 — Which counter becomes a field.  With the metadata cached, a
    "steam" metric comes back with the field "steam_cycle", a "grind"
    metric with the field "grind_cycle" and a "notification" metric with
    the field "metadata", set to the cached counter as an integer, exactly
    when that name is among the portal tags and the cached counter is not
    zero; otherwise the metric keeps whatever it held under that key. *)
Theorem counter_becomes_field r w (m : Metric) (cycle : string) :
  is_Some (metaCache r !! "metadata"%string) ->
  (cycle = "steam_cycle"%string /\ Metric.Name m = "steam"%string) \/
  (cycle = "grind_cycle"%string /\ Metric.Name m = "grind"%string) \/
  (cycle = "metadata"%string /\ Metric.Name m = "notification"%string) ->
  exists m' : Metric,
    Apply r w [m] = Some (r, w, [m']) /\
    Metric.GetField m' cycle
    = if existsb (fun tag => String.eqb tag cycle) (PortalTags r)
         && negb (default 0 (metaCache r !! cycle) =? 0)
      then Some (Metric.VInt (default 0 (metaCache r !! cycle)))
      else Metric.GetField m cycle.
Proof.
  intros Hc Hcase. exists (enrich r m). split.
  - simpl. rewrite Apply_body_cached; [reflexivity|exact Hc|].
    destruct Hcase as [[_ ->]|[[_ ->]|[_ ->]]]; discriminate.
  - unfold enrich. now apply cycle_field_loop.
Qed.

Lemma metadata_tag_step (cache : gmap string Z) (typ : string) (m : Metric) (tag : string) :
  typ = "steam"%string \/ typ = "grind"%string ->
  MetricTags.GetTag (attach cache typ m tag) "metadata"
  = if String.eqb tag "metadata" && negb (default 0 (cache !! "metadata"%string) =? 0)
    then Some (Sprint (default 0 (cache !! "metadata"%string)))
    else MetricTags.GetTag m "metadata".
Proof.
  intros [->| ->]; unfold attach;
    destruct (String.eqb_spec tag "steam_cycle") as [Es|Es];
    destruct (String.eqb_spec tag "grind_cycle") as [Eg|Eg];
    destruct (String.eqb_spec tag "metadata") as [Em|Em];
    try congruence; try subst tag; simpl;
    destruct (default 0 (cache !! _) =? 0); simpl; try reflexivity;
    rewrite GetTag_AddTag; reflexivity.
Qed.

Lemma metadata_tag_loop (cache : gmap string Z) (typ : string)
    (tags : list string) (m0 : Metric) :
  typ = "steam"%string \/ typ = "grind"%string ->
  MetricTags.GetTag (fold_left (attach cache typ) tags m0) "metadata"
  = if existsb (fun tag => String.eqb tag "metadata") tags
       && negb (default 0 (cache !! "metadata"%string) =? 0)
    then Some (Sprint (default 0 (cache !! "metadata"%string)))
    else MetricTags.GetTag m0 "metadata".
Proof.
  intros Hcase. revert m0.
  induction tags as [|tag tags IH]; intros m0; simpl.
  - reflexivity.
  - rewrite IH, metadata_tag_step by exact Hcase.
    destruct (String.eqb tag "metadata"); simpl; [|reflexivity].
    destruct (default 0 (cache !! "metadata"%string) =? 0); simpl;
      [now rewrite andb_false_r|now destruct (existsb _ tags)].
Qed.

(** X20 — The record id becomes a tag.  With the metadata cached, a
    "steam" or "grind" metric comes back with the tag "metadata" set to
    the cached record id in decimal, exactly when "metadata" is among the
    portal tags and the id is not zero; otherwise its tag "metadata", if
    it has one, is left alone. *)
Theorem record_id_becomes_tag r w (m : Metric) :
  is_Some (metaCache r !! "metadata"%string) ->
  Metric.Name m = "steam"%string \/ Metric.Name m = "grind"%string ->
  exists m' : Metric,
    Apply r w [m] = Some (r, w, [m']) /\
    MetricTags.GetTag m' "metadata"
    = if existsb (fun tag => String.eqb tag "metadata") (PortalTags r)
         && negb (default 0 (metaCache r !! "metadata"%string) =? 0)
      then Some (Sprint (default 0 (metaCache r !! "metadata"%string)))
      else MetricTags.GetTag m "metadata".
Proof.
  intros Hc Hcase. exists (enrich r m). split.
  - simpl. rewrite Apply_body_cached; [reflexivity|exact Hc|].
    destruct Hcase as [-> | ->]; discriminate.
  - unfold enrich. now apply metadata_tag_loop.
Qed.

Lemma Apply_body_bad_url r w (m : Metric) :
  url_valid (ApiUrl r) = false ->
  metaCache r !! "metadata"%string = None \/ Metric.Name m = "state_change"%string ->
  Apply_body r w m = None.
Proof.
  intros Hu Hc. unfold Apply_body.
  destruct (String.eqb_spec (Metric.Name m) "state_change") as [E|E].
  - change (metaCache (clearMetaCache r)) with (∅ : gmap string Z).
    rewrite lookup_empty. unfold getMetadata.
    change (ApiUrl (clearMetaCache r)) with (ApiUrl r). now rewrite Hu.
  - destruct Hc as [Hc|Hc]; [|contradiction].
    rewrite Hc. unfold getMetadata. now rewrite Hu.
Qed.

(** X21 — A URL that [http.NewRequest] rejects makes the first fetch
    panic.  With such a URL configured, [Apply] panics (on the nil
    request) exactly when it has to fetch: when the batch is not empty and
    the cache holds no entry "metadata", or when the batch holds a
    "state_change" metric; in every other case it returns. *)
Theorem rejected_url_panics r w (batch : list Metric) :
  url_valid (ApiUrl r) = false ->
  (Apply r w batch = None <->
   (metaCache r !! "metadata"%string = None /\ batch <> []) \/
   Exists (fun m => Metric.Name m = "state_change"%string) batch).
Proof.
  intros Hu. destruct (metaCache r !! "metadata"%string) as [v|] eqn:Hc.
  - induction batch as [|m rest IH].
    + split; [discriminate|].
      intros [[? _]|Hex]; [discriminate|inversion Hex].
    + destruct (String.eqb_spec (Metric.Name m) "state_change") as [E|E].
      * split; [intros _; right; now constructor|intros _].
        simpl. rewrite Apply_body_bad_url; [reflexivity|exact Hu|now right].
      * simpl. rewrite Apply_body_cached by (eauto || exact E).
        split.
        -- intros Hnone. right. apply Exists_cons_tl. 
           destruct (Apply r w rest) as [[[? ?] ?]|] eqn:Er; [discriminate|].
           destruct (proj1 IH eq_refl) as [[? _]|Hex]; [discriminate|exact Hex].
        -- intros [[? _]|Hex]; [discriminate|].
           inversion Hex as [? ? Hm|? ? Hr]; subst; [contradiction|].
           rewrite (proj2 IH (or_intror Hr)). reflexivity.
  - destruct batch as [|m rest].
    + split; [discriminate|].
      intros [[_ Hne]|Hex]; [contradiction|inversion Hex].
    + split; [intros _; left; split; [reflexivity|discriminate]|intros _].
      simpl. rewrite Apply_body_bad_url; [reflexivity|exact Hu|now left].
Qed.

End Facts.
End Metadata_facts.

(** ** Closed examples of the properties above *)

(** Example of X2: a batch whose last metric is of no listed measurement
    flushes what the batch buffered. *)
Lemma Apply_decides_on_last_witness :
  let t := Sample.engine in
  let batch := [Sample.steam_error; Sample.cpu] in
  let c' := fold_left put (List.filter (accepts t) batch) (cache t) in
  let fire := (length (Fields t !!! lastName batch)
               <=? length (c' !!! List.last (List.map groupkeyOf batch) EmptyString))%nat in
  complete (Apply_loop t batch) = fire /\
  fst (Apply t batch) = (if fire then aggregates c' else []) /\
  cache (snd (Apply t batch)) = (if fire then ∅ else c').
Proof.
  apply (Apply_decides_on_last Sample.engine [Sample.steam_error; Sample.cpu]).
  reflexivity.
Defined.

(** Example of X3: the engine of [New] and one grouping by host and
    region. *)
Lemma GroupBy_is_never_consulted_witness :
  fst (Apply Sample.engine [Sample.heater; Sample.steam_error])
  = fst (Apply MoreSample.regrouped [Sample.heater; Sample.steam_error]) /\
  cache (snd (Apply Sample.engine [Sample.heater; Sample.steam_error]))
  = cache (snd (Apply MoreSample.regrouped [Sample.heater; Sample.steam_error])).
Proof.
  apply (GroupBy_is_never_consulted Sample.engine MoreSample.regrouped
           [Sample.heater; Sample.steam_error]); reflexivity.
Defined.


(** Example of X5: the misconfigured engine on a batch of two, one of
    them accepted. *)
Lemma bad_patterns_drop_everything_witness :
  fst (Apply Sample.misconfigured [Sample.steam_error; Sample.cpu]) = [] /\
  cache (snd (Apply Sample.misconfigured [Sample.steam_error; Sample.cpu])) = ∅ /\
  Log (snd (Apply Sample.misconfigured [Sample.steam_error; Sample.cpu]))
  = Log Sample.misconfigured
    ++ repeat (keyErrorLine Sample.misconfigured)
         (length (List.filter (accepts Sample.misconfigured)
                    [Sample.steam_error; Sample.cpu])).
Proof.
  apply (bad_patterns_drop_everything Sample.misconfigured
           [Sample.steam_error; Sample.cpu]); reflexivity.
Defined.

(** Example of X6: the report the third call returns. *)
Lemma returned_aggregates_are_listed_witness :
  is_Some (Fields Sample.engine !! Metric.Name MoreSample.status_report) /\
  exists f, f ∈ Fields Sample.engine !!! Metric.Name MoreSample.status_report /\
            Metric.HasField MoreSample.status_report f = true.
Proof.
  apply (returned_aggregates_are_listed Sample.engine
           [[Sample.heater]; [Sample.vacuum; Sample.water]; [Sample.compressor]]
           MoreSample.status_report).
  - reflexivity.
  - vm_compute. apply list_elem_of_here.
Defined.

(** Example of X8: [compressor] repeats the key of [heater] and brings
    one of its own. *)
Lemma Aggregate_keeps_key_order_witness :
  fieldKeys Sample.heater `prefix_of` fieldKeys MoreSample.heater_compressor /\
  (NoDup (fieldKeys Sample.heater) -> NoDup (fieldKeys MoreSample.heater_compressor)).
Proof.
  apply (Aggregate_keeps_key_order Sample.heater [Sample.compressor]
           MoreSample.heater_compressor).
  reflexivity.
Defined.

(** Example of X7: the second report completes the group; the first is
    in the aggregate. *)
Lemma flush_keeps_every_field_witness :
  exists a : Metric,
    Some a ∈ fst (Apply Sample.steam_engine [MoreSample.steam_a; MoreSample.steam_b]) /\
    forall key, Metric.HasField MoreSample.steam_a key = true ->
                Metric.HasField a key = true.
Proof.
  apply (flush_keeps_every_field Sample.steam_engine
           [MoreSample.steam_a; MoreSample.steam_b]
           (groupkeyOf MoreSample.steam_a)
           [MoreSample.steam_a; MoreSample.steam_b] MoreSample.steam_a).
  - reflexivity.
  - reflexivity.
  - apply list_elem_of_here.
Defined.

(** Example of X9: the engine of [New], buffering one report, flushes on
    the empty batch. *)
Lemma empty_batch_witness :
  let t := fst (run Sample.engine [] [OpApply [Sample.steam_error]]) in
  Apply t [] = match Fields t !!! EmptyString with
               | [] => push t
               | _ :: _ => ([], t)
               end.
Proof.
  apply (empty_batch Sample.engine [OpApply [Sample.steam_error]]). reflexivity.
Defined.

(** Example of X14: the portal that answers 201. *)
Lemma only_201_to_304_succeed_witness :
  let r := MetadataSample.fresh in
  let w := MetadataSample.world in
  let tm := Sample.at_ 0 in
  let req := Metadata.metadataRequest tm "secret" "https://portal.example/api/metadata" in
  exists r' (resp : Metadata.Response) (err : option error),
    @Metadata.getMetadata MetadataSample.portal r w tm
      "secret" "https://portal.example/api/metadata"
    = Some (r', {| Metadata.meta_resp := Metadata.meta_resp w;
                   Metadata.sent := Metadata.sent w ++ [req] |}, (resp, err)) /\
    (err = None <->
     exists (code : Z) (status body : string),
       @Metadata.client_Do MetadataSample.portal (length (Metadata.sent w)) req
       = Http.Answers code status (inr body) /\
       200 < code < 305 /\ @Metadata.json_Unmarshal MetadataSample.portal body = inr resp) /\
    (err = None -> r' = Metadata.setMetaCache r resp) /\
    (err <> None -> r' = r /\ resp = Metadata.noResponse) /\
    (forall (status : string) (read : error + string),
        @Metadata.client_Do MetadataSample.portal (length (Metadata.sent w)) req
        = Http.Answers 200 status read ->
        err = Some ("unsuccessful status code: " +:+ status)%string).
Proof.
  apply (@Metadata_facts.only_201_to_304_succeed MetadataSample.portal
           MetadataSample.fresh MetadataSample.world (Sample.at_ 0)
           "secret" "https://portal.example/api/metadata").
  reflexivity.
Defined.

(** Example of X15: a first batch, which fetches [record]. *)
Lemma Apply_only_enriches_witness :
  let r' := MetadataSample.cached in
  Forall2 (fun m m' : Metric =>
             Metric.Name m' = Metric.Name m /\
             Metric.Time m' = Metric.Time m /\
             (forall key : string,
                 key <> "steam_cycle"%string -> key <> "grind_cycle"%string ->
                 key <> "metadata"%string ->
                 Metric.GetField m' key = Metric.GetField m key) /\
             (forall key : string,
                 key <> "metadata"%string ->
                 MetricTags.GetTag m' key = MetricTags.GetTag m key) /\
             (Metric.Name m <> "steam"%string -> Metric.Name m <> "grind"%string ->
              Metric.Name m <> "notification"%string -> m' = m))
          [MetadataSample.steam; Sample.cpu; MetadataSample.grind]
          (Metadata.enrich r' <$> [MetadataSample.steam; Sample.cpu; MetadataSample.grind]).
Proof.
  apply (@Metadata_facts.Apply_only_enriches MetadataSample.portal
           MetadataSample.fresh MetadataSample.world
           [MetadataSample.steam; Sample.cpu; MetadataSample.grind]
           MetadataSample.cached
           {| Metadata.meta_resp := MetadataSample.record;
              Metadata.sent :=
                [Metadata.metadataRequest (Sample.at_ 0) "secret"
                   "https://portal.example/api/metadata"] |}).
  vm_compute. reflexivity.
Defined.

(** Example of X16: a steam and a grind metric on the cached record. *)
Lemma cached_metadata_sends_nothing_witness :
  @Metadata.Apply MetadataSample.portal MetadataSample.cached MetadataSample.world
    [MetadataSample.steam; MetadataSample.grind]
  = Some (MetadataSample.cached, MetadataSample.world,
          Metadata.enrich MetadataSample.cached
            <$> [MetadataSample.steam; MetadataSample.grind]).
Proof.
  apply (@Metadata_facts.cached_metadata_sends_nothing MetadataSample.portal
           MetadataSample.cached MetadataSample.world
           [MetadataSample.steam; MetadataSample.grind]).
  - exists 7. reflexivity.
  - repeat constructor; discriminate.
Defined.

(** Example of X17: a state change on the cached record. *)
Lemma state_change_refetches_witness :
  exists r' w',
    @Metadata.Apply MetadataSample.portal MetadataSample.cached MetadataSample.world
      [Sample.state_change]
    = Some (r', w', [Sample.state_change]) /\
    Metadata.sent w'
    = Metadata.sent MetadataSample.world
      ++ [Metadata.metadataRequest (Metadata.InUTC (Metric.Time Sample.state_change))
            (Metadata.ApiKey MetadataSample.cached)
            (Metadata.ApiUrl MetadataSample.cached)] /\
    (Metadata.metaCache r' = ∅ \/
     exists resp : Metadata.Response,
       Metadata.meta_resp w' = resp /\
       Metadata.metaCache r'
       = <["grind_cycle"%string := Metadata.GrindCycle resp]>
           (<["steam_cycle"%string := Metadata.SteamCycle resp]>
              (<["metadata"%string := Metadata.Id resp]> ∅))).
Proof.
  apply (@Metadata_facts.state_change_refetches MetadataSample.portal
           MetadataSample.cached MetadataSample.world Sample.state_change);
    reflexivity.
Defined.


(** Example of X19: the steam counter of [record] on a steam metric. *)
Lemma counter_becomes_field_witness :
  exists m' : Metric,
    @Metadata.Apply MetadataSample.portal MetadataSample.cached MetadataSample.world
      [MetadataSample.steam]
    = Some (MetadataSample.cached, MetadataSample.world, [m']) /\
    Metric.GetField m' "steam_cycle"
    = if existsb (fun tag => String.eqb tag "steam_cycle")
           (Metadata.PortalTags MetadataSample.cached)
         && negb (default 0 (Metadata.metaCache MetadataSample.cached
                               !! "steam_cycle"%string) =? 0)
      then Some (Metric.VInt (default 0 (Metadata.metaCache MetadataSample.cached
                                           !! "steam_cycle"%string)))
      else Metric.GetField MetadataSample.steam "steam_cycle".
Proof.
  apply (@Metadata_facts.counter_becomes_field MetadataSample.portal
           MetadataSample.cached MetadataSample.world MetadataSample.steam
           "steam_cycle").
  - exists 7. reflexivity.
  - left. split; reflexivity.
Defined.

(** Example of X20: the id of [record] on a grind metric. *)
Lemma record_id_becomes_tag_witness :
  exists m' : Metric,
    @Metadata.Apply MetadataSample.portal MetadataSample.cached MetadataSample.world
      [MetadataSample.grind]
    = Some (MetadataSample.cached, MetadataSample.world, [m']) /\
    MetricTags.GetTag m' "metadata"
    = if existsb (fun tag => String.eqb tag "metadata")
           (Metadata.PortalTags MetadataSample.cached)
         && negb (default 0 (Metadata.metaCache MetadataSample.cached
                               !! "metadata"%string) =? 0)
      then Some (Metadata.Sprint (default 0 (Metadata.metaCache MetadataSample.cached
                                               !! "metadata"%string)))
      else MetricTags.GetTag MetadataSample.grind "metadata".
Proof.
  apply (@Metadata_facts.record_id_becomes_tag MetadataSample.portal
           MetadataSample.cached MetadataSample.world MetadataSample.grind).
  - exists 7. reflexivity.
  - right. reflexivity.
Defined.

(** Example of X21: the URL "://x", for which [http.NewRequest] returns
    no request.  With [record] cached a steam metric passes, and the state
    change after it panics; with nothing cached the steam metric panics. *)
Lemma rejected_url_panics_witness :
  @Metadata.Apply MetadataSample.portal MetadataSample.bad_url MetadataSample.world
    [MetadataSample.steam]
  = Some (MetadataSample.bad_url, MetadataSample.world,
          [Metadata.enrich MetadataSample.bad_url MetadataSample.steam]) /\
  @Metadata.Apply MetadataSample.portal MetadataSample.bad_url MetadataSample.world
    [MetadataSample.steam; Sample.state_change] = None /\
  @Metadata.Apply MetadataSample.portal
    (Metadata.clearMetaCache MetadataSample.bad_url) MetadataSample.world
    [MetadataSample.steam] = None.
Proof.
  split; [reflexivity|]. split.
  - apply (@Metadata_facts.rejected_url_panics MetadataSample.portal
             MetadataSample.bad_url MetadataSample.world
             [MetadataSample.steam; Sample.state_change]).
    + reflexivity.
    + right. apply Exists_cons_tl, Exists_cons_hd. reflexivity.
  - apply (@Metadata_facts.rejected_url_panics MetadataSample.portal
             (Metadata.clearMetaCache MetadataSample.bad_url) MetadataSample.world
             [MetadataSample.steam]).
    + reflexivity.
    + left. split; [reflexivity|discriminate].
Defined.
